(** * Debug layer of the CVM graph runtime

    A shallow embedding of [infernet/src/cvm/debug/graph_runtime_debug.cc]
    (class [GraphRuntimeDebug]) and the properties of its timing,
    benchmarking and intermediate-output operations.

    Conventions of the embedding.
    - C++ [int] / [int64_t] values are [Z]; [size_t] and [uint32_t] values
      that index vectors are [nat]; the conversions the source performs
      between them are written out ([size_t_of_int], [int_of_size_t], ...).
    - [std::chrono::high_resolution_clock::now()] is an oracle: the k-th
      reading of the clock is [clock k], in nanoseconds.
    - [double] values are IEEE 754 binary64 numbers ([spec_float] of the
      standard library, precision 53, [emax] 1024), every operation rounded
      to nearest, ties to even, and on its own; the literal [1.618] is the
      double nearest to 1618/1000.
    - Effects (storage writes, clock reads, closure invocations, device
      synchronisation, log lines, fatal checks) live in a small state and
      error monad [M]; the state survives a failure, so what happened
      before a fatal check can still be observed. *)

From Stdlib Require Import Strings.Byte String.
From Stdlib Require Import ZArith List Bool Arith Lia SpecFloat.
Import ListNotations.

Local Open Scope Z_scope.

(** ** Data model *)

(** [CVMContext]: the device descriptor of a tensor. *)
Record CVMContext : Type := mkCtx {
  device_type : Z;
  device_id : Z
}.

Definition Bytes : Type := list byte.

(** An [NDArray] as the debug layer sees it: a device descriptor and the
    bytes of the buffer the handle points to. *)
Record NDArray : Type := mkNDArray {
  ctx : CVMContext;
  data : Bytes
}.

(** A caller-supplied [DLTensor] destination buffer. *)
Record DLTensor : Type := mkDLTensor {
  dl_ctx : CVMContext;
  dl_capacity : nat;
  dl_data : Bytes
}.

(** Contents of the storage entries, by entry id.  [data_entry_] is a vector
    of handles built once when the graph is loaded: operator closures write
    through the handles and never resize the vector, so its length and the
    [ctx] of each element are fixed ([data_entry_ctx] below) and only the
    bytes are state. *)
Definition Mem : Type := nat -> Bytes.

(** An operator closure: a nullary effectful action on the storage. *)
Definition Closure : Type := Mem -> Mem.

(** What the debug layer reads from the base [GraphRuntime], which is
    declared in [graph_runtime.h]:
    - [op_execs_], the closure vector, an empty closure being [None];
    - [nodes_], the node names: [GetNodeName(nid)] for
      [nid < GetNumOfNodes()];
    - [data_entry_ctx], the device of each element of [data_entry_];
    - [entry_id], its function from a node index and an output slot to an
      index into [data_entry_], taken here as given. *)
Record GraphRuntime : Type := mkGraphRuntime {
  op_execs_ : list (option Closure);
  nodes_ : list string;
  data_entry_ctx : list CVMContext;
  entry_id : nat -> nat -> nat
}.

(** [double]: an IEEE 754 binary64 number. *)
Definition double : Type := spec_float.

(** Lines written to [LOG(INFO)] by [RunIndividual]. *)
Inductive LogLine : Type :=
| LogRepeat (i : Z)
| LogOp (op : Z) (ms_per_iter : double).

(** Observable events, in the order they happen. *)
Inductive Event : Type :=
| EvExec (index : nat)
| EvSync (c : CVMContext)
| EvLog (l : LogLine).

(** The state: the bytes of the storage entries, the number of clock
    readings taken so far, and the events so far. *)
Record World : Type := mkWorld {
  mem : Mem;
  reads : nat;
  trace : list Event
}.

(** ** The monad of effects *)

(** How a call ends: with a value; with a fatal check ([CHECK], [LOG(FATAL)])
    and its message; in undefined behaviour (a vector indexed past its end,
    a [double] cast to an [int] that cannot hold it); or, for the model
    only, with the fuel of a loop exhausted. *)
Inductive Result (A : Type) : Type :=
| Ok (a : A)
| Fatal (msg : string)
| Undefined
| OutOfFuel.

Arguments Ok {A} a.
Arguments Fatal {A} msg.
Arguments Undefined {A}.
Arguments OutOfFuel {A}.

Definition M (A : Type) : Type := World -> Result A * World.

Definition ret {A} (a : A) : M A := fun w => (Ok a, w).

Definition bind {A B} (m : M A) (k : A -> M B) : M B :=
  fun w =>
    match m w with
    | (Ok a, w') => k a w'
    | (Fatal msg, w') => (Fatal msg, w')
    | (Undefined, w') => (Undefined, w')
    | (OutOfFuel, w') => (OutOfFuel, w')
    end.

Declare Scope monad_scope.
Delimit Scope monad_scope with monad.
Notation "x <- c1 ;; c2" := (bind c1 (fun x => c2))
  (at level 61, c1 at next level, right associativity) : monad_scope.
Notation "c1 ;; c2" := (bind c1 (fun _ => c2))
  (at level 61, right associativity) : monad_scope.
Local Open Scope monad_scope.

Definition fatal {A} (msg : string) : M A := fun w => (Fatal msg, w).
Definition undefined {A} : M A := fun w => (Undefined, w).
Definition out_of_fuel {A} : M A := fun w => (OutOfFuel, w).

(** [CHECK(cond)]: fatal when the condition is false. *)
Definition CHECK (cond : bool) (msg : string) : M unit :=
  if cond then ret tt else fatal msg.

Definition emit (e : Event) : M unit :=
  fun w => (Ok tt, mkWorld (mem w) (reads w) (trace w ++ [e])).

Definition LOG_INFO (l : LogLine) : M unit := emit (EvLog l).

(** [CVMSynchronize(device_type, device_id, nullptr)]. *)
Definition CVMSynchronize (c : CVMContext) : M unit := emit (EvSync c).

(** Invocation of the closure of node [index]. *)
Definition invoke (index : nat) (f : Closure) : M unit :=
  fun w => (Ok tt, mkWorld (f (mem w)) (reads w) (trace w ++ [EvExec index])).

(** C++ conversions between the integer types the source mixes. *)
Definition INT_MAX : Z := 2147483647.
Definition INT_MIN : Z := -2147483648.

Definition size_t_of_int (z : Z) : nat := Z.to_nat (z mod 2 ^ 64).
Definition uint32_of_int (z : Z) : nat := Z.to_nat (z mod 2 ^ 32).
Definition int_of_size_t (n : nat) : Z :=
  (Z.of_nat n + 2 ^ 31) mod 2 ^ 32 - 2 ^ 31.

(** ** Arithmetic on [double] *)

(** Conversion of an integer ([int], or the [int64_t] count of a
    nanosecond duration) to [double]. *)
Definition double_of_int (z : Z) : double := binary_normalize 53 1024 z 0 false.

Definition dadd (x y : double) : double := SFadd 53 1024 x y.
Definition dmul (x y : double) : double := SFmul 53 1024 x y.
Definition ddiv (x y : double) : double := SFdiv 53 1024 x y.

(** The comparisons [x < y], [x <= y] and [x == y]; false on a NaN. *)
Definition dlt (x y : double) : bool := SFltb x y.
Definition dle (x y : double) : bool := SFleb x y.
Definition deq (x y : double) : bool := SFeqb x y.

(** The literals [0] and [0.0]. *)
Definition dzero : double := S754_zero false.

(** The literal [1.618]: the double 0x1.9e353f7ced917p+0, which is
    7286824197085463 * 2^-52. *)
Definition phi : double := S754_finite false 7286824197085463 (-52).

(** The integer part of a double, toward zero; none for an infinity or a
    NaN. *)
Definition trunc_double (x : double) : option Z :=
  match x with
  | S754_zero _ => Some 0
  | S754_finite s m e => Some (cond_Zopp s (Z.shiftl (Z.pos m) e))
  | S754_infinity _ | S754_nan => None
  end.

(** The value of [static_cast<int>(x)] where the cast is defined: the
    integer part, when an [int] can hold it. *)
Definition int_of_double (x : double) : option Z :=
  match trunc_double x with
  | Some z => if (INT_MIN <=? z) && (z <=? INT_MAX) then Some z else None
  | None => None
  end.

(** Number of invocations of the closure of node [index] in a trace. *)
Fixpoint count_exec (index : nat) (t : list Event) : nat :=
  match t with
  | [] => 0%nat
  | EvExec j :: t' =>
      if Nat.eqb j index then S (count_exec index t') else count_exec index t'
  | _ :: t' => count_exec index t'
  end.

(** The closure in slot [index] of a closure vector, if any. *)
Definition closure_at (ops : list (option Closure)) (index : nat)
  : option Closure :=
  match nth_error ops index with
  | Some o => o
  | None => None
  end.

Definition nonempty (ops : list (option Closure)) (index : nat) : bool :=
  match closure_at ops index with
  | Some _ => true
  | None => false
  end.

Section Runtime.

Variable g : GraphRuntime.
Variable clock : nat -> Z.

(** [std::chrono::high_resolution_clock::now()]. *)
Definition now : M Z :=
  fun w => (Ok (clock (reads w)), mkWorld (mem w) (S (reads w)) (trace w)).

(** [data_entry_[eid]]; indexing past the end of the vector is undefined. *)
Definition data_entry (eid : nat) : M NDArray :=
  fun w =>
    match nth_error (data_entry_ctx g) eid with
    | Some c => (Ok (mkNDArray c (mem w eid)), w)
    | None => (Undefined, w)
    end.

(** [op_execs_[index]], when [index] is in range. *)
Definition op_exec (index : nat) : option Closure :=
  closure_at (op_execs_ g) index.

(** Seconds between two clock readings, as
    [duration_cast<duration<double>>(tend - tbegin).count()]. *)
Definition seconds (tbegin tend : Z) : double :=
  ddiv (double_of_int (tend - tbegin)) (double_of_int 1000000000).

(** ** [DebugRun] *)

Definition DebugRun (index : nat) : M double :=
  CHECK (index <? length (op_execs_ g))%nat
        "Check failed: index < op_execs_.size()" ;;
  e <- data_entry (entry_id g index 0) ;;
  tbegin <- now ;;
  match op_exec index with
  | Some f => invoke index f
  | None => ret tt
  end ;;
  CVMSynchronize (ctx e) ;;
  tend <- now ;;
  ret (seconds tbegin tend).

(** ** [RunIndividual] *)

(** Modelled from the spec: the base executor's [GraphRuntime::Run] is
    declared in [graph_runtime.h] and defined outside this file.  The spec
    describes it as the full forward pass: the operator closures are invoked
    once each in list order, empty slots being skipped. *)
Fixpoint run_ops (ops : list (option Closure)) (index : nat) : M unit :=
  match ops with
  | [] => ret tt
  | o :: rest =>
      match o with
      | Some f => invoke index f
      | None => ret tt
      end ;;
      run_ops rest (S index)
  end.

Definition Run : M unit := run_ops (op_execs_ g) 0.

(** [time_per_op[index] += v]. *)
Fixpoint add_at (index : nat) (v : double) (l : list double) : list double :=
  match l, index with
  | [], _ => []
  | x :: l', O => dadd x v :: l'
  | x :: l', S i => x :: add_at i v l'
  end.

(** [std::fill(time_per_op.begin(), time_per_op.end(), 0)]. *)
Definition fill_zero (l : list double) : list double := map (fun _ => dzero) l.

(** One pass of the inner [for (size_t index ...)] loop: every non-empty
    closure is timed between two clock readings, with a device
    synchronisation before the second one. *)
Fixpoint timed_ops (ops : list (option Closure)) (index : nat)
    (time_per_op : list double) : M (list double) :=
  match ops with
  | [] => ret time_per_op
  | o :: rest =>
      tpo <- match o with
             | Some f =>
                 e <- data_entry (entry_id g index 0) ;;
                 op_tbegin <- now ;;
                 invoke index f ;;
                 CVMSynchronize (ctx e) ;;
                 op_tend <- now ;;
                 let op_duration := seconds op_tbegin op_tend in
                 ret (add_at index (dmul op_duration (double_of_int 1000))
                             time_per_op)
             | None => ret time_per_op
             end ;;
      timed_ops rest (S index) tpo
  end.

(** The [for (int k = 0; k < number; k++)] loop, [k] passes to go. *)
Fixpoint timed_iterations (k : nat) (time_per_op : list double)
  : M (list double) :=
  match k with
  | O => ret time_per_op
  | S k' =>
      tpo <- timed_ops (op_execs_ g) 0 time_per_op ;;
      timed_iterations k' tpo
  end.

(** [std::max(a, b)] is [(a < b) ? b : a]. *)
Definition std_max (a b : double) : double := if dlt a b then b else a.

(** [static_cast<int>(double)]: truncation; undefined when the truncated
    value is not representable as an [int], or there is none. *)
Definition static_cast_int (x : double) : M Z :=
  match int_of_double x with
  | Some z => ret z
  | None => undefined
  end.

(** The argument of the cast on lines 65-67:
    [max(min_repeat_ms / (duration_ms / number) + 1, number * 1.618)],
    the [int] operands converted to [double]. *)
Definition scaled_number (number min_repeat_ms : Z) (duration_ms : double)
  : double :=
  std_max (dadd (ddiv (double_of_int min_repeat_ms)
                      (ddiv duration_ms (double_of_int number)))
                (double_of_int 1))
          (dmul (double_of_int number) phi).

(** Milliseconds between two readings:
    [duration_cast<duration<double>>(tend - tbegin).count() * 1000]. *)
Definition millis (tbegin tend : Z) : double :=
  dmul (seconds tbegin tend) (double_of_int 1000).

(** Specification-only record of one attempt (one execution of the body of
    the [do ... while] loop): the iteration count it used, the accumulator
    as it was when the timed loop started, and the duration it measured. *)
Record Attempt : Type := mkAttempt {
  att_number : Z;
  att_time_per_op : list double;
  att_duration_ms : double
}.

(** The [do { ... } while (duration_ms < min_repeat_ms)] loop.  [fuel]
    bounds the number of attempts; the result carries the final [number],
    the accumulator and the attempts made. *)
Fixpoint do_while (fuel : nat) (min_repeat_ms number : Z)
    (duration_ms : double) (time_per_op : list double)
  : M (Z * list double * list Attempt) :=
  match fuel with
  | O => out_of_fuel
  | S fuel' =>
      let time_per_op0 := fill_zero time_per_op in
      number' <- (if dlt dzero duration_ms
                  then static_cast_int
                         (scaled_number number min_repeat_ms duration_ms)
                  else ret number) ;;
      tbegin <- now ;;
      tpo <- timed_iterations (Z.to_nat number') time_per_op0 ;;
      tend <- now ;;
      let duration_ms' := millis tbegin tend in
      let a := mkAttempt number' time_per_op0 duration_ms' in
      if dlt duration_ms' (double_of_int min_repeat_ms)
      then
        r <- do_while fuel' min_repeat_ms number' duration_ms' tpo ;;
        let '(n, t, h) := r in ret (n, t, a :: h)
      else ret (number', tpo, [a])
  end.

(** The reporting loop of lines 90-96. *)
Fixpoint report (ops : list (option Closure)) (number op : Z)
    (time_per_op : list double) : M (list double) :=
  match ops, time_per_op with
  | o :: ops', t :: tpo' =>
      match o with
      | Some _ =>
          let t' := ddiv t (double_of_int number) in
          LOG_INFO (LogOp op t') ;;
          rest <- report ops' number (op + 1) tpo' ;;
          ret (t' :: rest)
      | None =>
          rest <- report ops' number op tpo' ;;
          ret (t :: rest)
      end
  | _, _ => ret time_per_op
  end.

(** The outer [for (int i = 0; i < repeat; ++i)] loop, [k] repeats to go.
    The result lists, repeat by repeat, the attempts made. *)
Fixpoint repeats (fuel k : nat) (i min_repeat_ms number : Z)
    (time_per_op : list double) : M (list (list Attempt)) :=
  match k with
  | O => ret []
  | S k' =>
      r <- do_while fuel min_repeat_ms number dzero time_per_op ;;
      let '(number', tpo, h) := r in
      LOG_INFO (LogRepeat i) ;;
      tpo' <- report (op_execs_ g) number' 0 tpo ;;
      rest <- repeats fuel k' (i + 1) min_repeat_ms number' tpo' ;;
      ret (h :: rest)
  end.

Definition RunIndividual (fuel : nat) (number repeat min_repeat_ms : Z)
  : M (list (list Attempt)) :=
  Run ;;
  let time_per_op := List.repeat dzero (length (op_execs_ g)) in
  repeats fuel (Z.to_nat repeat) 0 min_repeat_ms number time_per_op.

(** ** [GetOutputByLayer] *)

(** [entry_id] takes unsigned arguments; the [int] parameters are converted
    on the way in.  No check precedes the indexing. *)
Definition GetOutputByLayer (index eid : Z) : M NDArray :=
  data_entry (entry_id g (uint32_of_int index) (uint32_of_int eid)).

(** ** [GetNodeIndex] *)

Fixpoint find_node (names : list string) (nid : nat) (name : string)
  : option nat :=
  match names with
  | [] => None
  | n :: rest =>
      if String.eqb n name then Some nid else find_node rest (S nid) name
  end.

Definition GetNodeIndex (name : string) : M Z :=
  match find_node (nodes_ g) 0 name with
  | Some nid => ret (int_of_size_t nid)
  | None => fatal ("cannot find " ++ name ++ " among nodex")
  end.

(** ** [DebugGetNodeOutput] *)

(** The loop of lines 146-149: closures run in order; the loop breaks after
    the node whose index, cast to [int], equals [index]. *)
Fixpoint run_upto (ops : list (option Closure)) (i : nat) (index : Z)
  : M unit :=
  match ops with
  | [] => ret tt
  | o :: rest =>
      match o with
      | Some f => invoke i f
      | None => ret tt
      end ;;
      if int_of_size_t i =? index then ret tt else run_upto rest (S i) index
  end.

(** Modelled from the spec: [NDArray::CopyTo] belongs to the base layer
    ([ndarray.h]).  The spec requires the destination to have sufficient
    capacity, verified by the copy routine, whose failure is surfaced to the
    caller; on success the destination holds the source's bytes. *)
Definition CopyTo (src : NDArray) (data_out : DLTensor) : M DLTensor :=
  if (length (data src) <=? dl_capacity data_out)%nat
  then ret (mkDLTensor (dl_ctx data_out) (dl_capacity data_out) (data src))
  else fatal "copy-out failure".

Definition DebugGetNodeOutput (index : Z) (data_out : DLTensor) : M DLTensor :=
  CHECK (size_t_of_int index <? length (op_execs_ g))%nat
        "Check failed: static_cast<size_t>(index) < op_execs_.size()" ;;
  let eid := uint32_of_int index in
  run_upto (op_execs_ g) 0 index ;;
  src <- data_entry eid ;;
  CopyTo src data_out.

(** ** The entry points returned by [GetFunction] *)

(** The first argument of [debug_get_output]: a string ([kStr]) or an
    integer. *)
Inductive Selector : Type :=
| SelStr (name : string)
| SelInt (index : Z).

Definition debug_run (a0 : Z) : M double := DebugRun (size_t_of_int a0).

Definition get_output_by_layer (a0 a1 : Z) : M NDArray :=
  GetOutputByLayer a0 a1.

Definition debug_get_output (a0 : Selector) (a1 : DLTensor) : M DLTensor :=
  match a0 with
  | SelStr name => index <- GetNodeIndex name ;; DebugGetNodeOutput index a1
  | SelInt index => DebugGetNodeOutput index a1
  end.

Definition run_individual (fuel : nat) (a0 a1 a2 : Z)
  : M (list (list Attempt)) :=
  let number := a0 in
  let repeat := a1 in
  let min_repeat_ms := a2 in
  CHECK (0 <? number) "Check failed: number > 0" ;;
  CHECK (0 <? repeat) "Check failed: repeat > 0" ;;
  CHECK (0 <=? min_repeat_ms) "Check failed: min_repeat_ms >= 0" ;;
  RunIndividual fuel number repeat min_repeat_ms.

End Runtime.

(** ** Vocabulary of the statements *)

(** Node [j] has a non-empty closure. *)
Definition has_closure (g : GraphRuntime) (j : nat) : bool :=
  nonempty (op_execs_ g) j.

(** The node a selector of [debug_get_output] designates: the integer
    itself, or the first node carrying the name. *)
Definition designates (g : GraphRuntime) (sel : Selector) (i : nat) : Prop :=
  match sel with
  | SelInt index => index = Z.of_nat i
  | SelStr name => find_node (nodes_ g) 0 name = Some i
  end.

(** Every node with a closure has its first output in the entry table. *)
Definition entries_live (g : GraphRuntime) : Prop :=
  forall index f,
    op_exec g index = Some f ->
    (entry_id g index 0 < length (data_entry_ctx g))%nat.

(** A clock that never goes backwards. *)
Definition monotone (clock : nat -> Z) : Prop :=
  forall i j, (i <= j)%nat -> clock i <= clock j.

(** The iteration count of the attempt that follows one that used
    [number] and measured [duration_ms]: the guard and the assignment of
    lines 64-68. *)
Definition next_count (min_repeat_ms number : Z) (duration_ms : double)
  : option Z :=
  if dlt dzero duration_ms
  then int_of_double (scaled_number number min_repeat_ms duration_ms)
  else Some number.

(** The duration of an attempt is the milliseconds between two clock
    readings. *)
Definition measured (a : Attempt) : Prop :=
  exists tbegin tend, att_duration_ms a = millis tbegin tend.

(** The attempts [a :: rest] of one repeat: each starts from the zeroed
    accumulator [zeros]; an attempt is followed by another exactly when it
    measured less than [min_repeat_ms], and the follower's count is
    [next_count] of it. *)
Fixpoint retries (min_repeat_ms : Z) (zeros : list double) (a : Attempt)
    (rest : list Attempt) {struct rest} : Prop :=
  att_time_per_op a = zeros /\
  match rest with
  | [] => dlt (att_duration_ms a) (double_of_int min_repeat_ms) = false
  | b :: rest' =>
      dlt (att_duration_ms a) (double_of_int min_repeat_ms) = true /\
      next_count min_repeat_ms (att_number a) (att_duration_ms a)
      = Some (att_number b) /\
      retries min_repeat_ms zeros b rest'
  end.

Definition repeat_record (min_repeat_ms : Z) (zeros : list double)
    (h : list Attempt) : Prop :=
  match h with
  | [] => False
  | a :: rest => retries min_repeat_ms zeros a rest
  end.

(** The count a repeat ends with. *)
Definition final_number (a : Attempt) (rest : list Attempt) : Z :=
  att_number (last rest a).

(** The first attempt of the first repeat uses [number]; the first attempt
    of every later repeat uses the count the previous repeat ended with. *)
Fixpoint starts_from (number : Z) (hists : list (list Attempt)) : Prop :=
  match hists with
  | [] => True
  | h :: later =>
      match h with
      | [] => False
      | a :: rest =>
          att_number a = number /\ starts_from (final_number a rest) later
      end
  end.

(** [x <= l0 <= l1 <= ...]. *)
Fixpoint ascending_from (x : Z) (l : list Z) : Prop :=
  match l with
  | [] => True
  | y :: l' => x <= y /\ ascending_from y l'
  end.





(** The numbers [i] of the "Repeat: i" lines in a trace. *)
Fixpoint repeats_logged (t : list Event) : list Z :=
  match t with
  | [] => []
  | EvLog (LogRepeat i) :: t' => i :: repeats_logged t'
  | _ :: t' => repeats_logged t'
  end.

(** [i, i + 1, ..., i + k - 1]. *)
Fixpoint count_up (i : Z) (k : nat) : list Z :=
  match k with
  | O => []
  | S k' => i :: count_up (i + 1) k'
  end.

(** A computation is stable for a relation on states when the state it
    leaves, whatever its outcome, is related to the state it started in. *)
Definition stable {A} (R : World -> World -> Prop) (m : M A) : Prop :=
  forall w, R w (snd (m w)).

Definition reads_le (w w' : World) : Prop := (reads w <= reads w')%nat.

Definition same_repeats (w w' : World) : Prop :=
  repeats_logged (trace w') = repeats_logged (trace w).

(** How often node [index] is invoked in one pass over the closures [ops],
    the first of which belongs to node [k]. *)
Fixpoint hits (ops : list (option Closure)) (k index : nat) : nat :=
  match ops with
  | [] => 0%nat
  | o :: rest =>
      (match o with
       | Some _ => if Nat.eqb k index then 1%nat else 0%nat
       | None => 0%nat
       end + hits rest (S k) index)%nat
  end.

Definition same_execs (w w' : World) : Prop :=
  forall index, count_exec index (trace w') = count_exec index (trace w).

(** ** Example graphs and clocks *)

Definition cpu : CVMContext := mkCtx 1 0.

(** A closure that stores [b] into entry [e]. *)
Definition store_entry (e : nat) (b : Bytes) : Closure :=
  fun m k => if Nat.eqb k e then b else m k.

Definition single_output_ids (nid index : nat) : nat := (nid + index)%nat.

(** One placeholder node, no kernel. *)
Definition g_placeholder : GraphRuntime :=
  mkGraphRuntime [None] ["data"%string] [cpu] single_output_ids.

(** Closures A (empty) and B (compute). *)
Definition g_two : GraphRuntime :=
  mkGraphRuntime [None; Some (store_entry 1 [x2a]%byte)]
                 ["A"; "B"]%string [cpu; cpu] single_output_ids.

(** Three nodes named in, mid, out. *)
Definition g_three : GraphRuntime :=
  mkGraphRuntime
    [Some (store_entry 0 [x01]%byte);
     Some (store_entry 1 [x02]%byte);
     Some (store_entry 2 [x03]%byte)]
    ["in"; "mid"; "out"]%string [cpu; cpu; cpu] single_output_ids.

(** Node 0 has two outputs (entries 0 and 1), node 1 has one (entry 2):
    the first entry of node 1 is entry 2. *)
Definition two_output_ids (nid index : nat) : nat :=
  match nid with
  | O => index
  | S n => (S (S n) + index)%nat
  end.

Definition g_split : GraphRuntime :=
  mkGraphRuntime
    [Some (fun m => store_entry 1 [x11]%byte (store_entry 0 [x10]%byte m));
     Some (store_entry 2 [x20]%byte)]
    ["split"; "relu"]%string [cpu; cpu; cpu] two_output_ids.

(** Three nodes, the last two of which carry the same name. *)
Definition g_repeated : GraphRuntime :=
  mkGraphRuntime
    [Some (store_entry 0 [x01]%byte);
     Some (store_entry 1 [x02]%byte);
     Some (store_entry 2 [x03]%byte)]
    ["in"; "conv"; "conv"]%string [cpu; cpu; cpu] single_output_ids.

Definition w_init : World := mkWorld (fun _ => []) 0 [].

Definition dst_init : DLTensor := mkDLTensor cpu 4 [].

(** A clock that advances one microsecond per reading. *)
Definition clock_us (k : nat) : Z := 1000 * Z.of_nat k.

(** A coarse clock: the first three readings coincide, the later ones are
    5 ms after them. *)
Definition clock_coarse (k : nat) : Z :=
  match k with
  | 0%nat | 1%nat | 2%nat => 0
  | _ => 5000000
  end.

(** A clock that advances 1.904 ms per reading. *)
Definition clock_tick (k : nat) : Z := 1904000 * Z.of_nat k.

(** A clock that advances 0.6 ms per reading. *)
Definition clock_steady (k : nat) : Z := 600000 * Z.of_nat k.

(** A clock on which the first attempt of a one-closure graph run with one
    iteration lasts 1001000000 ns, and the second 2002000000 ns. *)
Definition clock_second (k : nat) : Z :=
  match k with
  | 0%nat | 1%nat | 2%nat => 0
  | 3%nat | 4%nat => 1001000000
  | _ => 3003000000
  end.

(** ** Vocabulary of the further properties *)

(** The storage after the closures [ops] have been invoked in order, empty
    slots being skipped. *)
Definition apply_closures (ops : list (option Closure)) (m : Mem) : Mem :=
  fold_left (fun m o => match o with Some f => f m | None => m end) ops m.

(** The device of the first entry of node [index], when it is in the
    table. *)
Definition ctx_at (g : GraphRuntime) (index : nat) : CVMContext :=
  match nth_error (data_entry_ctx g) (entry_id g index 0) with
  | Some c => c
  | None => mkCtx 0 0
  end.

(** The events of one untimed pass over the closures [ops], the first of
    which belongs to node [k]: one invocation per non-empty closure. *)
Fixpoint exec_events (ops : list (option Closure)) (k : nat) : list Event :=
  match ops with
  | [] => []
  | Some _ :: rest => EvExec k :: exec_events rest (S k)
  | None :: rest => exec_events rest (S k)
  end.

(** The events of one timed pass: each invocation is followed at once by
    the synchronisation of the device of the node's first entry. *)
Fixpoint pass_events (g : GraphRuntime) (ops : list (option Closure))
    (k : nat) : list Event :=
  match ops with
  | [] => []
  | Some _ :: rest =>
      EvExec k :: EvSync (ctx_at g k) :: pass_events g rest (S k)
  | None :: rest => pass_events g rest (S k)
  end.

(** Number of non-empty closures. *)
Fixpoint closures_in (ops : list (option Closure)) : nat :=
  match ops with
  | [] => 0%nat
  | Some _ :: rest => S (closures_in rest)
  | None :: rest => closures_in rest
  end.

(** [l] repeated [n] times. *)
Fixpoint iterate {A} (n : nat) (l : list A) : list A :=
  match n with
  | O => []
  | S n' => l ++ iterate n' l
  end.

(** A trace without its log lines. *)
Fixpoint strip_logs (t : list Event) : list Event :=
  match t with
  | [] => []
  | EvLog _ :: t' => strip_logs t'
  | e :: t' => e :: strip_logs t'
  end.

(** Timed passes made by a list of attempts: the sum of their counts. *)
Fixpoint iterations_of (h : list Attempt) : nat :=
  match h with
  | [] => 0%nat
  | a :: rest => (Z.to_nat (att_number a) + iterations_of rest)%nat
  end.

(** A log line without the value it reports. *)
Inductive LogShape : Type :=
| ShRepeat (i : Z)
| ShOp (op : Z).

Fixpoint log_shapes (t : list Event) : list LogShape :=
  match t with
  | [] => []
  | EvLog (LogRepeat i) :: t' => ShRepeat i :: log_shapes t'
  | EvLog (LogOp op _) :: t' => ShOp op :: log_shapes t'
  | _ :: t' => log_shapes t'
  end.

(** The lines of repeats [i, i + 1, ..., i + k - 1] on a graph with [c]
    non-empty closures: "Repeat: i", then "Op #0" ... "Op #(c-1)". *)
Fixpoint report_shapes (c : nat) (i : Z) (k : nat) : list LogShape :=
  match k with
  | O => []
  | S k' =>
      (ShRepeat i :: map ShOp (count_up 0 c)) ++ report_shapes c (i + 1) k'
  end.

Definition same_events (w w' : World) : Prop :=
  strip_logs (trace w') = strip_logs (trace w) /\ reads w' = reads w.

Definition same_shapes (w w' : World) : Prop :=
  log_shapes (trace w') = log_shapes (trace w).

(** A double that is neither negative nor a NaN: a zero of the positive
    sign, a positive value or plus infinity. *)
Definition positive_sign (x : double) : Prop :=
  match x with
  | S754_zero s | S754_infinity s | S754_finite s _ _ => s = false
  | S754_nan => False
  end.

(** The double with sign [s], mantissa [m] and exponent [e] once the
    mantissa has its final width. *)
Definition rounded (s : bool) (m e : Z) : double :=
  match m with
  | Z0 => S754_zero s
  | Zpos p => if e <=? 971 then S754_finite s p e else S754_infinity s
  | Zneg _ => S754_nan
  end.

(** A clock that has stopped. *)
Definition clock_stopped (k : nat) : Z := 0.

(** * Properties *)

(** ** Rounding to [double] *)

Lemma digits2_pos_size (p : positive) : digits2_pos p = Pos.size p.
Proof. induction p as [p IH | p IH |]; simpl; now try rewrite IH. Qed.

Lemma Zdigits2_log2 (m : Z) : 0 < m -> Zdigits2 m = Z.log2 m + 1.
Proof.
  destruct m as [| p | p]; try lia. intros _.
  unfold Zdigits2. rewrite digits2_pos_size.
  destruct p as [p | p |]; simpl; try reflexivity; lia.
Qed.

Lemma fexp_double (x : Z) : fexp 53 1024 x = Z.max (x - 53) (-1074).
Proof. reflexivity. Qed.

Lemma shr_1_m (mrs : shr_record) :
  0 <= shr_m mrs -> shr_m (shr_1 mrs) = Z.div2 (shr_m mrs).
Proof.
  destruct mrs as [m r s]. simpl. intros H.
  destruct m as [| [p | p |] | p]; try reflexivity; lia.
Qed.

Lemma iter_pos_shr_m (p : positive) : forall mrs,
  0 <= shr_m mrs ->
  shr_m (iter_pos shr_1 p mrs) = Z.shiftr (shr_m mrs) (Z.pos p).
Proof.
  induction p as [p IH | p IH |]; intros mrs H; cbn [iter_pos].
  - assert (H1 : 0 <= shr_m (shr_1 mrs))
      by (rewrite shr_1_m by exact H; apply Z.div2_nonneg; exact H).
    assert (H2 : 0 <= shr_m (iter_pos shr_1 p (shr_1 mrs)))
      by (rewrite IH by exact H1; apply Z.shiftr_nonneg; exact H1).
    rewrite IH by exact H2. rewrite IH by exact H1.
    rewrite shr_1_m by exact H. rewrite Z.div2_spec.
    rewrite !Z.shiftr_shiftr by lia. f_equal. lia.
  - assert (H2 : 0 <= shr_m (iter_pos shr_1 p mrs))
      by (rewrite IH by exact H; apply Z.shiftr_nonneg; exact H).
    rewrite IH by exact H2. rewrite IH by exact H.
    rewrite Z.shiftr_shiftr by lia. f_equal. lia.
  - rewrite shr_1_m by exact H. apply Z.div2_spec.
Qed.

Lemma shr_record_of_loc_m m l : shr_m (shr_record_of_loc m l) = m.
Proof. destruct l as [| []]; reflexivity. Qed.

Lemma shr_fexp_spec (m e : Z) (l : location) :
  0 <= m ->
  let k := Z.max 0 (fexp 53 1024 (Zdigits2 m + e) - e) in
  shr_m (fst (shr_fexp 53 1024 m e l)) = Z.shiftr m k /\
  snd (shr_fexp 53 1024 m e l) = e + k.
Proof.
  intros H k. subst k. unfold shr_fexp, shr.
  destruct (fexp 53 1024 (Zdigits2 m + e) - e) as [| p | p];
    simpl fst; simpl snd.
  - rewrite shr_record_of_loc_m. simpl. rewrite Z.shiftr_0_r. lia.
  - rewrite iter_pos_shr_m by (rewrite shr_record_of_loc_m; exact H).
    rewrite shr_record_of_loc_m.
    replace (Z.max 0 (Z.pos p)) with (Z.pos p) by lia.
    split; reflexivity.
  - rewrite shr_record_of_loc_m. replace (Z.max 0 (Z.neg p)) with 0 by lia.
    rewrite Z.shiftr_0_r. lia.
Qed.

Lemma round_nearest_even_bounds mx l :
  mx <= round_nearest_even mx l <= mx + 1.
Proof.
  unfold round_nearest_even. destruct l as [| []]; try lia.
  destruct (Z.even mx); lia.
Qed.

(** The shape of a rounded result. *)
Lemma binary_round_aux_eq (s : bool) (M e : Z) (l : location) :
  0 <= M ->
  let E := e + Z.max 0 (fexp 53 1024 (Zdigits2 M + e) - e) in
  exists m2,
    Z.shiftr M (E - e) <= m2 <= Z.shiftr M (E - e) + 1 /\
    binary_round_aux 53 1024 s M e l
    = let k2 := Z.max 0 (fexp 53 1024 (Zdigits2 m2 + E) - E) in
      rounded s (Z.shiftr m2 k2) (E + k2).
Proof.
  intros HM E.
  destruct (shr_fexp_spec M e l HM) as (Hm1 & He1).
  unfold binary_round_aux.
  destruct (shr_fexp 53 1024 M e l) as [mrs' e'] eqn:E1. simpl in Hm1, He1.
  set (m2 := round_nearest_even (shr_m mrs') (loc_of_shr_record mrs')).
  pose proof (round_nearest_even_bounds (shr_m mrs') (loc_of_shr_record mrs'))
    as Hb.
  fold m2 in Hb.
  assert (Hm1' : 0 <= shr_m mrs')
    by (rewrite Hm1; apply Z.shiftr_nonneg; exact HM).
  assert (Hm2 : 0 <= m2) by lia.
  destruct (shr_fexp_spec m2 e' loc_Exact Hm2) as (Hm3 & He3).
  destruct (shr_fexp 53 1024 m2 e' loc_Exact) as [mrs'' e''] eqn:E2.
  simpl in Hm3, He3.
  exists m2. subst E.
  replace (e + Z.max 0 (fexp 53 1024 (Zdigits2 M + e) - e) - e)
    with (Z.max 0 (fexp 53 1024 (Zdigits2 M + e) - e)) by lia.
  rewrite <- Hm1. split; [exact Hb |].
  rewrite <- He1. cbv zeta. rewrite <- Hm3, <- He3.
  unfold rounded. destruct (shr_m mrs''); reflexivity.
Qed.

Lemma shiftl_le_mono (a b n : Z) : a <= b -> Z.shiftl a n <= Z.shiftl b n.
Proof.
  intros H. destruct (Z.le_gt_cases 0 n) as [Hn | Hn].
  - rewrite !Z.shiftl_mul_pow2 by exact Hn.
    apply Z.mul_le_mono_nonneg_r; [apply Z.pow_nonneg; lia | exact H].
  - rewrite !Z.shiftl_div_pow2 by lia.
    apply Z.div_le_mono; [apply Z.pow_pos_nonneg; lia | exact H].
Qed.

Lemma shiftl_shiftr_nonpos (M k E : Z) :
  0 <= k -> E <= 0 ->
  Z.shiftl (Z.shiftr M k) E = Z.shiftl M (E - k).
Proof.
  intros Hk HE.
  rewrite <- (Z.opp_involutive E) at 1. rewrite Z.shiftl_opp_r.
  rewrite Z.shiftr_shiftr by lia.
  rewrite <- Z.shiftl_opp_r. f_equal. lia.
Qed.

Lemma log2_52 (m : Z) : Z.log2 m = 52 -> 2 ^ 52 <= m < 2 ^ 53.
Proof.
  intros H. assert (Hm : 0 < m).
  { destruct (Z.lt_trichotomy 0 m) as [Hp | [<- | Hn]];
      [exact Hp | discriminate |].
    rewrite Z.log2_nonpos in H by lia. discriminate. }
  pose proof (Z.log2_spec m Hm) as Hs. rewrite H in Hs. exact Hs.
Qed.

(** Rounding a mantissa with at least 53 bits, in the normal range. *)
Lemma binary_round_aux_normal (s : bool) (M e : Z) (l : location) :
  0 < M -> 53 <= Zdigits2 M -> -1074 <= Zdigits2 M + e - 53 ->
  binary_round_aux 53 1024 s M e l = S754_infinity s \/
  exists m' e',
    binary_round_aux 53 1024 s M e l = S754_finite s m' e' /\
    Zdigits2 (Z.pos m') = 53 /\
    Zdigits2 M + e - 53 <= e' <= Zdigits2 M + e - 52 /\
    (e' <= 0 -> Z.shiftl M e <= Z.shiftl (Z.pos m') e').
Proof.
  intros HM HD HN.
  destruct (binary_round_aux_eq s M e l ltac:(lia)) as (m2 & Hb & Heq).
  rewrite Heq. clear Heq. rewrite !fexp_double in *.
  set (d := Zdigits2 M) in *.
  replace (e + Z.max 0 (Z.max (d + e - 53) (-1074) - e))
    with (d + e - 53) in * by lia.
  replace (d + e - 53 - e) with (d - 53) in Hb by lia.
  set (m1 := Z.shiftr M (d - 53)) in *.
  assert (Hl1 : Z.log2 m1 = 52).
  { subst m1. rewrite Z.log2_shiftr by exact HM.
    subst d. rewrite Zdigits2_log2 in * by exact HM. lia. }
  pose proof (log2_52 m1 Hl1) as H1.
  cbv zeta.
  assert (Hcase : m2 < 2 ^ 53 \/ m2 = 2 ^ 53) by lia.
  assert (Hsh : forall E, E <= 0 -> Z.shiftl m1 E = Z.shiftl M (E - (d - 53))).
  { intros E HE. subst m1. apply shiftl_shiftr_nonpos; lia. }
  destruct Hcase as [Hlt | ->].
  - assert (Hd2 : Zdigits2 m2 = 53).
    { rewrite Zdigits2_log2 by lia.
      rewrite (Z.log2_unique m2 52); lia. }
    rewrite Hd2.
    replace (Z.max 0 (Z.max (53 + (d + e - 53) - 53) (-1074) - (d + e - 53)))
      with 0 by lia.
    rewrite Z.shiftr_0_r, Z.add_0_r.
    destruct m2 as [| p | p]; try lia. unfold rounded.
    destruct (d + e - 53 <=? 971); [right | now left].
    exists p, (d + e - 53). split; [reflexivity |].
    split; [exact Hd2 |]. split; [lia |].
    intros HE. apply Z.le_trans with (Z.shiftl m1 (d + e - 53)).
    + rewrite Hsh by exact HE. apply Z.eq_le_incl. f_equal. lia.
    + apply shiftl_le_mono. lia.
  - change (Zdigits2 (2 ^ 53)) with 54.
    replace (Z.max 0 (Z.max (54 + (d + e - 53) - 53) (-1074) - (d + e - 53)))
      with 1 by lia.
    change (Z.shiftr (2 ^ 53) 1) with (Z.pos 4503599627370496).
    unfold rounded.
    destruct (d + e - 53 + 1 <=? 971); [right | now left].
    exists 4503599627370496%positive, (d + e - 53 + 1).
    split; [reflexivity |]. split; [reflexivity |]. split; [lia |].
    intros HE.
    change (Z.pos 4503599627370496) with (Z.shiftr (2 ^ 53) 1).
    rewrite shiftl_shiftr_nonpos by lia.
    replace (d + e - 53 + 1 - 1) with (d + e - 53) by lia.
    apply Z.le_trans with (Z.shiftl m1 (d + e - 53)).
    + rewrite Hsh by lia. apply Z.eq_le_incl. f_equal. lia.
    + apply shiftl_le_mono. lia.
Qed.

(** Whatever the range, a finite result is normal or has the least
    exponent. *)
Lemma binary_round_aux_finite (s : bool) (M e : Z) (l : location)
    (s' : bool) (m' : positive) (e' : Z) :
  0 < M -> e <= fexp 53 1024 (Zdigits2 M + e) ->
  binary_round_aux 53 1024 s M e l = S754_finite s' m' e' ->
  s' = s /\ (Zdigits2 (Z.pos m') = 53 \/ e' = -1074).
Proof.
  intros HM Hpre Heq. rewrite fexp_double in Hpre.
  destruct (Z.le_gt_cases (-1074) (Zdigits2 M + e - 53)) as [HN | HS].
  - destruct (binary_round_aux_normal s M e l HM ltac:(lia) HN)
      as [Hinf | (m0 & e0 & H0 & Hd & _)].
    + congruence.
    + rewrite H0 in Heq. injection Heq as <- <- <-. auto.
  - destruct (binary_round_aux_eq s M e l ltac:(lia)) as (m2 & Hb & Heq2).
    rewrite Heq2 in Heq. clear Heq2. rewrite !fexp_double in *.
    set (d := Zdigits2 M) in *.
    replace (e + Z.max 0 (Z.max (d + e - 53) (-1074) - e))
      with (-1074) in * by lia.
    cbv zeta in Heq.
    assert (Hm1 : 0 <= Z.shiftr M (-1074 - e)) by (apply Z.shiftr_nonneg; lia).
    assert (Hm1u : Z.shiftr M (-1074 - e) < 2 ^ 52).
    { destruct (Z.eq_dec (Z.shiftr M (-1074 - e)) 0) as [-> | Hnz]; [lia |].
      apply Z.log2_lt_pow2; [lia |].
      rewrite Z.log2_shiftr by exact HM.
      subst d. rewrite Zdigits2_log2 in * by exact HM. lia. }
    assert (Hd2 : Zdigits2 m2 <= 53).
    { destruct (Z.eq_dec m2 0) as [-> | Hnz]; [simpl; lia |].
      rewrite Zdigits2_log2 by lia.
      assert (Z.log2 m2 <= Z.log2 (2 ^ 52)) by (apply Z.log2_le_mono; lia).
      rewrite Z.log2_pow2 in H by lia. lia. }
    replace (Z.max 0 (Z.max (Zdigits2 m2 + -1074 - 53) (-1074) - -1074))
      with 0 in Heq by lia.
    rewrite Z.shiftr_0_r, Z.add_0_r in Heq.
    unfold rounded in Heq. destruct m2 as [| p | p]; try discriminate.
    simpl in Heq. injection Heq as <- <- <-. auto.
Qed.

Lemma binary_round_aux_sign (s : bool) (M e : Z) (l : location) :
  match binary_round_aux 53 1024 s M e l with
  | S754_zero s' | S754_infinity s' | S754_finite s' _ _ => s' = s
  | S754_nan => True
  end.
Proof.
  unfold binary_round_aux.
  destruct (shr_fexp 53 1024 M e l) as [mrs' e'].
  destruct (shr_fexp 53 1024 _ e' loc_Exact) as [mrs'' e''].
  destruct (shr_m mrs''); auto.
  destruct (e'' <=? 1024 - 53); reflexivity.
Qed.

Lemma binary_round_aux_not_nan (s : bool) (M e : Z) (l : location) :
  0 <= M -> binary_round_aux 53 1024 s M e l <> S754_nan.
Proof.
  intros HM.
  destruct (binary_round_aux_eq s M e l HM) as (m2 & Hb & Heq).
  rewrite Heq. cbv zeta.
  assert (H2 : 0 <= m2).
  { pose proof (Z.shiftr_nonneg M
      (e + Z.max 0 (fexp 53 1024 (Zdigits2 M + e) - e) - e)). lia. }
  match goal with |- rounded _ (Z.shiftr m2 ?k) ?x <> _ =>
    pose proof (proj2 (Z.shiftr_nonneg m2 k) H2) as H3;
    destruct (Z.shiftr m2 k) as [| p | p]; simpl; try lia; try discriminate;
    destruct (x <=? 971); discriminate
  end.
Qed.

Lemma shiftl_pos (a n : Z) : 0 < a -> 0 <= n -> 0 < Z.shiftl a n.
Proof.
  intros Ha Hn. rewrite Z.shiftl_mul_pow2 by exact Hn.
  apply Z.mul_pos_pos; [exact Ha | apply Z.pow_pos_nonneg; lia].
Qed.

Lemma pos_iter_xO (m d : positive) :
  Z.pos (Pos.iter xO m d) = Z.shiftl (Z.pos m) (Z.pos d).
Proof.
  unfold Z.shiftl.
  apply (Pos.iter_swap_gen _ _ Z.pos xO (Z.mul 2)). reflexivity.
Qed.

(** [shl_align] pads the mantissa so that the exponent is at most the
    target, keeping the value and the position of its leading bit. *)
Lemma shl_align_spec (m : positive) (e E : Z) :
  let r := shl_align m e E in
  snd r = Z.min e E /\
  Z.pos (fst r) = Z.shiftl (Z.pos m) (e - snd r) /\
  Zdigits2 (Z.pos (fst r)) + snd r = Zdigits2 (Z.pos m) + e.
Proof.
  unfold shl_align. destruct (E - e) as [| p | p] eqn:Hd; cbn [fst snd].
  - replace (Z.min e E) with e by lia. rewrite Z.sub_diag, Z.shiftl_0_r. auto.
  - replace (Z.min e E) with e by lia. rewrite Z.sub_diag, Z.shiftl_0_r. auto.
  - replace (Z.min e E) with E by lia.
    assert (He : e - E = Z.pos p) by lia.
    rewrite He, pos_iter_xO. split; [reflexivity |]. split; [reflexivity |].
    rewrite !Zdigits2_log2.
    + rewrite Z.log2_shiftl by lia. lia.
    + lia.
    + apply shiftl_pos; lia.
Qed.

Lemma binary_round_normal (s : bool) (m : positive) (e : Z) :
  -1074 <= Zdigits2 (Z.pos m) + e - 53 ->
  binary_round 53 1024 s m e = S754_infinity s \/
  exists m' e',
    binary_round 53 1024 s m e = S754_finite s m' e' /\
    Zdigits2 (Z.pos m') = 53 /\
    Zdigits2 (Z.pos m) + e - 53 <= e' <= Zdigits2 (Z.pos m) + e - 52 /\
    (e' <= 0 -> Z.shiftl (Z.pos m) e <= Z.shiftl (Z.pos m') e').
Proof.
  intros HN. unfold binary_round.
  pose proof (shl_align_spec m e (fexp 53 1024 (Z.pos (digits2_pos m) + e)))
    as (Hez & Hmz & Hdz).
  destruct (shl_align m e (fexp 53 1024 (Z.pos (digits2_pos m) + e)))
    as [mz ez]. cbn [fst snd] in *.
  change (Z.pos (digits2_pos m)) with (Zdigits2 (Z.pos m)) in *.
  rewrite fexp_double in Hez.
  destruct (binary_round_aux_normal s (Z.pos mz) ez loc_Exact)
    as [Hinf | (m' & e' & Heq & Hd & He & Ht)]; try lia.
  - now left.
  - right. exists m', e'. split; [exact Heq |]. split; [exact Hd |].
    split; [lia |]. intros He0. specialize (Ht He0).
    rewrite Hmz in Ht. rewrite Z.shiftl_shiftl in Ht by lia.
    replace (e - ez + ez) with e in Ht by lia. exact Ht.
Qed.

Lemma binary_round_finite (s : bool) (m : positive) (e : Z)
    (s' : bool) (m' : positive) (e' : Z) :
  binary_round 53 1024 s m e = S754_finite s' m' e' ->
  s' = s /\ (Zdigits2 (Z.pos m') = 53 \/ e' = -1074).
Proof.
  unfold binary_round.
  pose proof (shl_align_spec m e (fexp 53 1024 (Z.pos (digits2_pos m) + e)))
    as (Hez & Hmz & Hdz).
  destruct (shl_align m e (fexp 53 1024 (Z.pos (digits2_pos m) + e)))
    as [mz ez]. cbn [fst snd] in *.
  change (Z.pos (digits2_pos m)) with (Zdigits2 (Z.pos m)) in *.
  apply binary_round_aux_finite; [lia |].
  rewrite Hdz. lia.
Qed.

(** ** The count after a retry, in doubles *)

Lemma phi_literal : phi = ddiv (double_of_int 1618) (double_of_int 1000).
Proof. reflexivity. Qed.

Lemma double_of_int_pos (n : Z) :
  0 < n ->
  double_of_int n = S754_infinity false \/
  exists m e,
    double_of_int n = S754_finite false m e /\
    Zdigits2 (Z.pos m) = 53 /\
    Zdigits2 n - 53 <= e <= Zdigits2 n - 52 /\
    (e <= 0 -> n <= Z.shiftl (Z.pos m) e).
Proof.
  intros Hn. destruct n as [| p | p]; try lia.
  unfold double_of_int, binary_normalize.
  assert (Hd : 1 <= Zdigits2 (Z.pos p)) by (rewrite Zdigits2_log2 by lia;
    pose proof (Z.log2_nonneg (Z.pos p)); lia).
  destruct (binary_round_normal false p 0 ltac:(lia))
    as [Hinf | (m & e & Heq & Hm & He & Ht)].
  - now left.
  - right. exists m, e. rewrite Z.shiftl_0_r in Ht.
    split; [exact Heq |]. split; [exact Hm |]. split; [lia | exact Ht].
Qed.

(** [number * 1.618] in doubles, truncated, is at least the integer part of
    the exact product, and at least [number]. *)
Lemma mul_phi_lower (n : Z) :
  0 < n ->
  dmul (double_of_int n) phi = S754_infinity false \/
  exists mb eb,
    dmul (double_of_int n) phi = S754_finite false mb eb /\
    Zdigits2 (Z.pos mb) = 53 /\ -52 <= eb /\
    (eb <= 0 ->
       n <= Z.shiftl (Z.pos mb) eb /\
       1618 * n / 1000 <= Z.shiftl (Z.pos mb) eb).
Proof.
  intros Hn.
  assert (Hdn : 1 <= Zdigits2 n) by (rewrite Zdigits2_log2 by lia;
    pose proof (Z.log2_nonneg n); lia).
  destruct (double_of_int_pos n Hn) as [-> | (mn & en & -> & Hmn & Hen & Htn)].
  - now left.
  - unfold dmul, phi, SFmul. cbn [xorb].
    set (mphi := 7286824197085463%positive).
    assert (Hl : Z.log2 (Z.pos mn) = 52)
      by (rewrite Zdigits2_log2 in Hmn by lia; lia).
    assert (HdM : 105 <= Zdigits2 (Z.pos (mn * mphi))).
    { rewrite Zdigits2_log2 by lia. rewrite Pos2Z.inj_mul.
      pose proof (Z.log2_mul_below (Z.pos mn) (Z.pos mphi)
                    ltac:(lia) ltac:(lia)).
      change (Z.log2 (Z.pos mphi)) with 52 in H. lia. }
    destruct (binary_round_aux_normal false (Z.pos (mn * mphi)) (en + -52)
                loc_Exact)
      as [Hinf | (mb & eb & Heq & Hmb & Heb & Htb)]; try lia.
    + now left.
    + right. exists mb, eb. split; [exact Heq |]. split; [exact Hmb |].
      split; [lia |]. intros He0.
      specialize (Htb He0). specialize (Htn ltac:(lia)).
      rewrite Z.shiftl_div_pow2 in Htn by lia.
      rewrite (Z.shiftl_div_pow2 (Z.pos (mn * mphi))) in Htb by lia.
      set (P := 2 ^ (- en)) in *.
      assert (HP : 0 < P) by (apply Z.pow_pos_nonneg; lia).
      assert (HnP : n * P <= Z.pos mn).
      { pose proof (Z.mul_div_le (Z.pos mn) P HP).
        apply Z.le_trans with (P * (Z.pos mn / P)); [| exact H].
        rewrite (Z.mul_comm n P). apply Z.mul_le_mono_nonneg_l; lia. }
      replace (- (en + -52)) with (52 + - en) in Htb by lia.
      rewrite Z.pow_add_r in Htb by lia. fold P in Htb.
      change (2 ^ 52) with 4503599627370496 in Htb.
      rewrite Pos2Z.inj_mul in Htb.
      assert (Hlow : forall q, 0 <= q ->
                q * 4503599627370496 <= Z.pos mphi * n ->
                q <= Z.pos mn * Z.pos mphi / (4503599627370496 * P)).
      { intros q Hq0 Hq. apply Z.div_le_lower_bound; [lia |].
        apply Z.le_trans with (Z.pos mphi * n * P).
        - replace (4503599627370496 * P * q) with (q * 4503599627370496 * P)
            by ring.
          apply Z.mul_le_mono_nonneg_r; lia.
        - replace (Z.pos mphi * n * P) with (Z.pos mphi * (n * P)) by ring.
          rewrite (Z.mul_comm (Z.pos mn)).
          apply Z.mul_le_mono_nonneg_l; lia. }
      split.
      * eapply Z.le_trans; [| exact Htb]. apply Hlow; subst mphi; lia.
      * eapply Z.le_trans; [| exact Htb].
        assert (Hq : 0 <= 1618 * n / 1000) by (apply Z.div_pos; lia).
        apply Hlow; [exact Hq |].
        pose proof (Z.mul_div_le (1618 * n) 1000 ltac:(lia)).
        subst mphi. lia.
Qed.

Lemma pow2_le_mono (x y : Z) : x <= y -> 2 ^ x <= 2 ^ y.
Proof.
  intros H. destruct (Z.le_gt_cases 0 x).
  - apply Z.pow_le_mono_r; lia.
  - rewrite (Z.pow_neg_r 2 x) by lia. apply Z.pow_nonneg. lia.
Qed.

(** Among normal positive doubles, [a < b] being false means the integer
    part of [a] is at least that of [b]. *)
Lemma trunc_compare (ma mb : positive) (ea eb : Z) :
  Zdigits2 (Z.pos ma) = 53 -> Zdigits2 (Z.pos mb) = 53 ->
  dlt (S754_finite false ma ea) (S754_finite false mb eb) = false ->
  Z.shiftl (Z.pos mb) eb <= Z.shiftl (Z.pos ma) ea.
Proof.
  intros Ha Hb. unfold dlt, SFltb, SFcompare.
  rewrite Zdigits2_log2 in Ha, Hb by lia.
  pose proof (log2_52 (Z.pos ma) ltac:(lia)) as Hra.
  pose proof (log2_52 (Z.pos mb) ltac:(lia)) as Hrb.
  destruct (ea ?= eb) eqn:Ec.
  - apply Z.compare_eq in Ec. subst eb.
    change (Pos.compare_cont Eq ma mb) with (ma ?= mb)%positive.
    destruct (ma ?= mb)%positive eqn:Em; try discriminate; intros _;
      apply shiftl_le_mono.
    + apply Pos.compare_eq in Em. subst. lia.
    + apply Pos.compare_gt_iff in Em. lia.
  - discriminate.
  - intros _. apply Z.compare_gt_iff in Ec.
    apply Z.le_trans with (Z.shiftl (2 ^ 53) eb);
      [apply shiftl_le_mono; lia |].
    apply Z.le_trans with (Z.shiftl (2 ^ 52) ea);
      [| apply shiftl_le_mono; lia].
    rewrite <- !Z.shiftl_1_l. rewrite !Z.shiftl_shiftl by lia.
    rewrite !Z.shiftl_1_l. apply pow2_le_mono. lia.
Qed.

Lemma dadd_one_finite (x : double) (s : bool) (m : positive) (e : Z) :
  dadd x (double_of_int 1) = S754_finite s m e ->
  Zdigits2 (Z.pos m) = 53 \/ e = -1074.
Proof.
  change (double_of_int 1) with (S754_finite false 4503599627370496 (-52)).
  unfold dadd, SFadd. destruct x as [sx | sx | | sx mx ex]; try discriminate.
  - intros [= <- <- <-]. now left.
  - unfold binary_normalize.
    match goal with |- context [match ?z with Z0 => _ | _ => _ end] =>
      destruct z as [| p | p] end; try discriminate;
      intros H; apply binary_round_finite in H; tauto.
Qed.

Lemma scaled_number_lower (n m z : Z) (d : double) :
  0 < n ->
  trunc_double (scaled_number n m d) = Some z ->
  z <= INT_MAX ->
  n <= z /\ 1618 * n / 1000 <= z.
Proof.
  intros Hn Ht Hz. unfold scaled_number, std_max in Ht.
  set (a := dadd (ddiv (double_of_int m) (ddiv d (double_of_int n)))
                 (double_of_int 1)) in *.
  assert (Hbig : forall (mb : positive) (eb : Z),
            Zdigits2 (Z.pos mb) = 53 -> 0 < eb ->
            INT_MAX < Z.shiftl (Z.pos mb) eb).
  { intros mb eb Hd He. rewrite Zdigits2_log2 in Hd by lia.
    pose proof (log2_52 (Z.pos mb) ltac:(lia)) as Hr.
    rewrite Z.shiftl_mul_pow2 by lia.
    assert (1 <= 2 ^ eb) by (apply (pow2_le_mono 0 eb); lia).
    unfold INT_MAX. change (2 ^ 52) with 4503599627370496 in Hr. nia. }
  destruct (mul_phi_lower n Hn) as [Hb | (mb & eb & Hb & Hdb & Heb & Hlow)];
    rewrite Hb in Ht.
  - destruct (dlt a (S754_infinity false)) eqn:Hlt; [discriminate |].
    destruct a as [sa | sa | | sa ma ea]; discriminate.
  - destruct (dlt a (S754_finite false mb eb)) eqn:Hlt.
    + simpl in Ht. injection Ht as <-.
      destruct (Z.le_gt_cases eb 0) as [He | He]; [now apply Hlow |].
      pose proof (Hbig mb eb Hdb He). lia.
    + destruct a as [sa | sa | | sa ma ea] eqn:Ea; try discriminate.
      destruct sa; [discriminate Hlt |].
      destruct (dadd_one_finite _ _ _ _ Ea) as [Hda | ->].
      * simpl in Ht. injection Ht as <-.
        pose proof (trunc_compare ma mb ea eb Hda Hdb Hlt) as Hc.
        destruct (Z.le_gt_cases eb 0) as [He | He].
        -- specialize (Hlow He). lia.
        -- pose proof (Hbig mb eb Hdb He). lia.
      * unfold dlt, SFltb, SFcompare in Hlt.
        assert (Hc : (-1074 ?= eb) = Lt) by (apply Z.compare_lt_iff; lia).
        rewrite Hc in Hlt. discriminate.
Qed.

(** ** Signs *)

Lemma binary_round_aux_positive_sign (M e : Z) (l : location) :
  0 <= M -> positive_sign (binary_round_aux 53 1024 false M e l).
Proof.
  intros HM.
  pose proof (binary_round_aux_sign false M e l) as Hs.
  pose proof (binary_round_aux_not_nan false M e l HM) as Hn.
  destruct (binary_round_aux 53 1024 false M e l); simpl; auto.
Qed.

Lemma double_of_int_positive_sign (z : Z) :
  0 <= z -> positive_sign (double_of_int z).
Proof.
  intros Hz. destruct z as [| p | p]; try lia; [reflexivity |].
  unfold double_of_int, binary_normalize, binary_round.
  destruct (shl_align p 0 _) as [mz ez].
  apply binary_round_aux_positive_sign. lia.
Qed.

Lemma ddiv_positive_sign (x : double) (m : positive) (e : Z) :
  positive_sign x -> positive_sign (ddiv x (S754_finite false m e)).
Proof.
  destruct x as [s | s | | s mx ex]; simpl; intros H; try contradiction;
    subst s; try reflexivity.
  unfold SFdiv_core_binary.
  match goal with |- context [Z.div_eucl ?a ?b] =>
    pose proof (Z_div_mod a b ltac:(lia)) as Hdiv;
    assert (Ha : 0 <= a);
    [| destruct (Z.div_eucl a b) as [q r] ]
  end.
  { match goal with |- 0 <= match ?s with _ => _ end =>
      destruct s eqn:Es; try lia end.
    apply Z.shiftl_nonneg. lia. }
  apply binary_round_aux_positive_sign.
  destruct Hdiv as (Hq & Hr). nia.
Qed.

Lemma dmul_positive_sign (x : double) (m : positive) (e : Z) :
  positive_sign x -> positive_sign (dmul x (S754_finite false m e)).
Proof.
  destruct x as [s | s | | s mx ex]; simpl; intros H; try contradiction;
    subst s; try reflexivity.
  apply binary_round_aux_positive_sign. lia.
Qed.

Lemma positive_sign_not_lt (x : double) :
  positive_sign x -> dlt x dzero = false.
Proof.
  destruct x as [s | s | | s m e]; simpl; intros H; try contradiction;
    subst; reflexivity.
Qed.

Lemma positive_sign_le (x : double) : positive_sign x -> dle dzero x = true.
Proof.
  destruct x as [s | s | | s m e]; simpl; intros H; try contradiction;
    subst; reflexivity.
Qed.

Lemma seconds_positive_sign (t0 t1 : Z) :
  t0 <= t1 -> positive_sign (seconds t0 t1).
Proof.
  intros H. unfold seconds.
  change (double_of_int 1000000000)
    with (S754_finite false 8388608000000000 (-23)).
  apply ddiv_positive_sign, double_of_int_positive_sign. lia.
Qed.

Lemma millis_positive_sign (t0 t1 : Z) :
  t0 <= t1 -> positive_sign (millis t0 t1).
Proof.
  intros H. unfold millis.
  change (double_of_int 1000) with (S754_finite false 8796093022208000 (-43)).
  apply dmul_positive_sign, seconds_positive_sign, H.
Qed.

Lemma millis_same (c : Z) : millis c c = dzero.
Proof. unfold millis, seconds. rewrite Z.sub_diag. reflexivity. Qed.

Lemma dlt_zero_double_of_int (m : Z) :
  0 < m -> dlt dzero (double_of_int m) = true.
Proof.
  intros H.
  destruct (double_of_int_pos m H) as [-> | (mm & em & -> & _)]; reflexivity.
Qed.

(** ** A quotient by 1e9 does not underflow *)

Lemma double_of_int_nonzero (z : Z) :
  z <> 0 ->
  (exists s, double_of_int z = S754_infinity s) \/
  exists s m e,
    double_of_int z = S754_finite s m e /\
    Zdigits2 (Z.pos m) = 53 /\ -52 <= e.
Proof.
  intros Hz. unfold double_of_int, binary_normalize.
  assert (Hd : forall p, 1 <= Zdigits2 (Z.pos p)).
  { intros p. rewrite Zdigits2_log2 by lia.
    pose proof (Z.log2_nonneg (Z.pos p)). lia. }
  destruct z as [| p | p]; [congruence | |];
    pose proof (Hd p) as Hp;
    match goal with |- context [binary_round 53 1024 ?s p 0] =>
      destruct (binary_round_normal s p 0 ltac:(lia))
        as [Hinf | (m & e & Heq & Hm & He & _)]
    end;
    try (left; eexists; eassumption);
    right; eexists; exists m, e; (split; [eassumption |]); split; lia.
Qed.

Lemma ddiv_nanoseconds_nonzero (s : bool) (mx : positive) (ex : Z) :
  Zdigits2 (Z.pos mx) = 53 -> -52 <= ex ->
  deq (ddiv (S754_finite s mx ex) (double_of_int 1000000000)) dzero = false.
Proof.
  intros Hd He.
  change (double_of_int 1000000000)
    with (S754_finite false 8388608000000000 (-23)).
  unfold ddiv, SFdiv, SFdiv_core_binary.
  rewrite Hd. change (Zdigits2 (Z.pos 8388608000000000)) with 53.
  rewrite fexp_double.
  replace (Z.min (Z.max (53 + ex - (53 + -23) - 53) (-1074)) (ex - -23))
    with (ex - 30) by lia.
  replace (ex - -23 - (ex - 30)) with 53 by lia.
  cbv zeta.
  pose proof (Z_div_mod (Z.shiftl (Z.pos mx) 53) (Z.pos 8388608000000000)
                ltac:(lia)) as Hdiv.
  destruct (Z.div_eucl (Z.shiftl (Z.pos mx) 53) (Z.pos 8388608000000000))
    as [q r].
  destruct Hdiv as (Hq & Hr).
  rewrite Z.shiftl_mul_pow2 in Hq by lia.
  rewrite Zdigits2_log2 in Hd by lia.
  pose proof (log2_52 (Z.pos mx) ltac:(lia)) as Hmx.
  change (2 ^ 52) with 4503599627370496 in Hmx.
  change (2 ^ 53) with 9007199254740992 in Hq, Hmx.
  assert (Hq52 : 2 ^ 52 <= q) by (change (2 ^ 52) with 4503599627370496; nia).
  assert (Hdq : 53 <= Zdigits2 q).
  { rewrite Zdigits2_log2 by lia.
    pose proof (Z.log2_le_mono _ _ Hq52) as Hl.
    rewrite Z.log2_pow2 in Hl by lia. lia. }
  destruct (binary_round_aux_normal (xorb s false) q (ex - 30)
              (new_location (Z.pos 8388608000000000) r))
    as [-> | (m' & e' & -> & _)]; try lia; destruct s; reflexivity.
Qed.

Lemma seconds_zero_iff (t0 t1 : Z) :
  deq (seconds t0 t1) dzero = true <-> t1 = t0.
Proof.
  split.
  - intros H. destruct (Z.eq_dec (t1 - t0) 0) as [E | E]; [lia |].
    exfalso. unfold seconds in H.
    destruct (double_of_int_nonzero _ E)
      as [(s & Hs) | (s & m & e & Hs & Hm & He)]; rewrite Hs in H.
    + destruct s; vm_compute in H; discriminate.
    + rewrite ddiv_nanoseconds_nonzero in H by assumption. discriminate.
  - intros ->. unfold seconds. rewrite Z.sub_diag. reflexivity.
Qed.

(** ** Measured durations are numbers *)






(** ** Stepping through monadic code *)

Lemma bind_Ok {A B} (m : M A) (k : A -> M B) w a w1 :
  m w = (Ok a, w1) -> bind m k w = k a w1.
Proof. intros H. unfold bind. now rewrite H. Qed.

Lemma bind_inv_Ok {A B} (m : M A) (k : A -> M B) w b w' :
  bind m k w = (Ok b, w') ->
  exists a w1, m w = (Ok a, w1) /\ k a w1 = (Ok b, w').
Proof.
  unfold bind. destruct (m w) as [[a | msg | | ] w1]; try discriminate.
  intros H. now exists a, w1.
Qed.

Lemma CHECK_true msg w : CHECK true msg w = (Ok tt, w).
Proof. reflexivity. Qed.

Lemma CHECK_false msg w : CHECK false msg w = (Fatal msg, w).
Proof. reflexivity. Qed.

(** Integer conversions are the identity on the values both types hold. *)
Lemma int_of_size_t_small (n : nat) :
  Z.of_nat n <= INT_MAX -> int_of_size_t n = Z.of_nat n.
Proof.
  unfold INT_MAX, int_of_size_t. intros H.
  rewrite Z.mod_small; lia.
Qed.

Lemma int_of_size_t_range (n : nat) :
  INT_MIN <= int_of_size_t n <= INT_MAX.
Proof.
  unfold INT_MIN, INT_MAX, int_of_size_t.
  pose proof (Z.mod_pos_bound (Z.of_nat n + 2 ^ 31) (2 ^ 32) ltac:(lia)). lia.
Qed.

Lemma size_t_of_int_small (z : Z) :
  0 <= z <= INT_MAX -> size_t_of_int z = Z.to_nat z.
Proof.
  unfold INT_MAX, size_t_of_int. intros H. rewrite Z.mod_small; lia.
Qed.

Lemma uint32_of_int_small (z : Z) :
  0 <= z <= INT_MAX -> uint32_of_int z = Z.to_nat z.
Proof.
  unfold INT_MAX, uint32_of_int. intros H. rewrite Z.mod_small; lia.
Qed.

(** ** The node index map *)

Lemma find_node_Some names name : forall k nid,
  find_node names k name = Some nid ->
  (k <= nid)%nat /\
  nth_error names (nid - k) = Some name /\
  forall j, (j < nid - k)%nat -> nth_error names j <> Some name.
Proof.
  induction names as [| n rest IH]; intros k nid H; simpl in H.
  - discriminate.
  - destruct (String.eqb n name) eqn:E.
    + injection H as <-. apply String.eqb_eq in E. subst n.
      rewrite Nat.sub_diag. repeat split; auto. intros j Hj. lia.
    + apply IH in H. destruct H as (Hle & Hnth & Hmin).
      apply String.eqb_neq in E.
      replace (nid - k)%nat with (S (nid - S k)) by lia.
      repeat split; [lia | exact Hnth |].
      intros [| j] Hj; simpl.
      * intros [= ->]. now apply E.
      * apply Hmin. lia.
Qed.

Lemma find_node_None names name : forall k,
  find_node names k name = None ->
  forall j, nth_error names j <> Some name.
Proof.
  induction names as [| n rest IH]; intros k H j; simpl in H.
  - now destruct j.
  - destruct (String.eqb n name) eqn:E; [discriminate |].
    apply String.eqb_neq in E. destruct j as [| j]; simpl.
    + intros [= ->]. now apply E.
    + now apply (IH (S k)).
Qed.

(** C7: for every name, [GetNodeIndex] returns the smallest index whose node
    name equals it (hence the index itself when the name is unique) and
    leaves the state untouched; when no node has the name it fails fatally
    with the message "cannot find <name> among nodex".  The node count fits
    an [int], as the source's cast of the index to [int] assumes. *)
Theorem GetNodeIndex_smallest_or_fatal (g : GraphRuntime) (name : string)
    (w : World) :
  Z.of_nat (length (nodes_ g)) <= INT_MAX ->
  (exists nid,
      GetNodeIndex g name w = (Ok (Z.of_nat nid), w) /\
      nth_error (nodes_ g) nid = Some name /\
      (forall j, (j < nid)%nat -> nth_error (nodes_ g) j <> Some name) /\
      (forall i, nth_error (nodes_ g) i = Some name ->
                 (forall j, nth_error (nodes_ g) j = Some name -> j = i) ->
                 nid = i))
  \/
  (GetNodeIndex g name w
     = (Fatal ("cannot find " ++ name ++ " among nodex"), w) /\
   forall j, nth_error (nodes_ g) j <> Some name).
Proof.
  intros Hsize. unfold GetNodeIndex.
  destruct (find_node (nodes_ g) 0 name) as [nid |] eqn:E.
  - left. exists nid. apply find_node_Some in E.
    destruct E as (_ & Hnth & Hmin). rewrite Nat.sub_0_r in Hnth, Hmin.
    assert (Hlt : (nid < length (nodes_ g))%nat).
    { apply nth_error_Some. congruence. }
    rewrite int_of_size_t_small by lia.
    repeat split; auto.
  - right. split; [reflexivity |]. now apply (find_node_None _ _ 0%nat).
Qed.

Lemma GetNodeIndex_smallest_or_fatal_witness :
  GetNodeIndex g_three "mid" w_init = (Ok 1, w_init) /\
  GetNodeIndex g_three "conv" w_init
  = (Fatal "cannot find conv among nodex", w_init).
Proof.
  assert (Hsize : Z.of_nat (length (nodes_ g_three)) <= INT_MAX)
    by (vm_compute; discriminate).
  split.
  - destruct (GetNodeIndex_smallest_or_fatal g_three "mid" w_init Hsize)
      as [(nid & Heq & _ & _ & Huniq) | (_ & Hnone)].
    + rewrite Heq. rewrite (Huniq 1%nat); [reflexivity | reflexivity |].
      intros j Hj.
      destruct j as [| [| [| [| j]]]]; simpl in Hj; try discriminate.
      reflexivity.
    + exfalso. now apply (Hnone 1%nat).
  - destruct (GetNodeIndex_smallest_or_fatal g_three "conv" w_init Hsize)
      as [(nid & _ & Hnth & _) | (Hfatal & _)].
    + exfalso. destruct nid as [| [| [| [| nid]]]]; discriminate.
    + exact Hfatal.
Defined.

(** ** Validation in the [run_individual] entry point *)

(** C8: when [number <= 0], [repeat <= 0] or [min_repeat_ms < 0], the
    [run_individual] entry point fails fatally and the state is the one it
    started from: no closure was invoked (not even the warm-up run), no
    clock was read, nothing was logged. *)
Theorem run_individual_validates (g : GraphRuntime) (clock : nat -> Z)
    (fuel : nat) (number repeat min_repeat_ms : Z) (w : World) :
  number <= 0 \/ repeat <= 0 \/ min_repeat_ms < 0 ->
  exists msg,
    run_individual g clock fuel number repeat min_repeat_ms w = (Fatal msg, w).
Proof.
  intros H. unfold run_individual.
  destruct (0 <? number) eqn:E1.
  2:{ eexists. reflexivity. }
  destruct (0 <? repeat) eqn:E2.
  2:{ eexists. reflexivity. }
  destruct (0 <=? min_repeat_ms) eqn:E3.
  2:{ eexists. reflexivity. }
  apply Z.ltb_lt in E1, E2. apply Z.leb_le in E3. lia.
Qed.

(** The spec's scenario: [run_individual(0, 1, 0)] is fatal and nothing has
    run. *)
Lemma run_individual_validates_witness :
  exists msg,
    run_individual g_two clock_us 1 0 1 0 w_init = (Fatal msg, w_init).
Proof.
  apply (run_individual_validates g_two clock_us 1 0 1 0 w_init).
  left. lia.
Defined.

(** When the three checks pass, the entry point is [RunIndividual]. *)
Lemma run_individual_valid (g : GraphRuntime) (clock : nat -> Z)
    (fuel : nat) (number repeat min_repeat_ms : Z) (w : World) :
  0 < number -> 0 < repeat -> 0 <= min_repeat_ms ->
  run_individual g clock fuel number repeat min_repeat_ms w
  = RunIndividual g clock fuel number repeat min_repeat_ms w.
Proof.
  intros H1 H2 H3. unfold run_individual.
  apply Z.ltb_lt in H1, H2. apply Z.leb_le in H3.
  now rewrite H1, H2, H3.
Qed.

(** ** [GetOutputByLayer] has no bounds check *)

(** C10: [GetOutputByLayer] indexes the entry table with no validation: its
    result is the entry when [entry_id(index, eid)] is inside the table and
    undefined otherwise, never a fatal check; the undefined branch is
    reached by caller-supplied arguments; [debug_run] and
    [DebugGetNodeOutput] instead fail fatally, state untouched, on an index
    that is not below the number of closures. *)
Theorem GetOutputByLayer_no_bounds_check :
  (forall g index eid w,
      let e := entry_id g (uint32_of_int index) (uint32_of_int eid) in
      get_output_by_layer g index eid w
      = match nth_error (data_entry_ctx g) e with
        | Some c => (Ok (mkNDArray c (mem w e)), w)
        | None => (Undefined, w)
        end) /\
  (forall g index eid w,
      (length (data_entry_ctx g)
       <= entry_id g (uint32_of_int index) (uint32_of_int eid))%nat ->
      get_output_by_layer g index eid w = (Undefined, w)) /\
  (exists g index eid w,
      get_output_by_layer g index eid w = (Undefined, w)) /\
  (forall g clock index dst w,
      (length (op_execs_ g) <= size_t_of_int index)%nat ->
      (exists msg, debug_run g clock index w = (Fatal msg, w)) /\
      (exists msg, DebugGetNodeOutput g index dst w = (Fatal msg, w))).
Proof.
  split; [| split; [| split]].
  - intros g index eid w e. reflexivity.
  - intros g index eid w H.
    unfold get_output_by_layer, GetOutputByLayer, data_entry.
    apply nth_error_None in H. now rewrite H.
  - exists g_three, 7, 0, w_init. reflexivity.
  - intros g clock index dst w H.
    apply Nat.ltb_ge in H.
    unfold debug_run, DebugRun, DebugGetNodeOutput, bind.
    rewrite H. split; eexists; reflexivity.
Qed.

Lemma GetOutputByLayer_no_bounds_check_witness :
  get_output_by_layer g_three 7 0 w_init = (Undefined, w_init) /\
  (exists msg, debug_run g_three clock_us 7 w_init = (Fatal msg, w_init)).
Proof.
  destruct GetOutputByLayer_no_bounds_check as (_ & Hout & _ & Hchk).
  split.
  - apply Hout. vm_compute. lia.
  - apply (Hchk g_three clock_us 7 dst_init w_init). vm_compute. lia.
Defined.

(** ** [DebugRun] on a node without a closure *)

(** C2, as the code has it: for every [index < N] whose closure is empty
    (and whose first entry is in the table), [DebugRun] invokes no closure
    but still reads the clock exactly twice and synchronises the entry's
    device exactly once; it returns the seconds between the two readings,
    which compares equal to zero exactly when the readings coincide. *)
Theorem DebugRun_empty_closure (g : GraphRuntime) (clock : nat -> Z)
    (index : nat) (c : CVMContext) (w : World) :
  (index < length (op_execs_ g))%nat ->
  op_exec g index = None ->
  nth_error (data_entry_ctx g) (entry_id g index 0) = Some c ->
  let t0 := clock (reads w) in
  let t1 := clock (S (reads w)) in
  DebugRun g clock index w
  = (Ok (seconds t0 t1),
     mkWorld (mem w) (S (S (reads w))) (trace w ++ [EvSync c])) /\
  (deq (seconds t0 t1) dzero = true <-> t1 = t0).
Proof.
  intros Hlt Hnone Hentry t0 t1. split.
  - unfold DebugRun, bind, data_entry.
    apply Nat.ltb_lt in Hlt. rewrite Hlt. simpl.
    rewrite Hentry, Hnone. reflexivity.
  - apply seconds_zero_iff.
Qed.

Lemma DebugRun_empty_closure_witness :
  DebugRun g_placeholder clock_us 0 w_init
  = (Ok (seconds 0 1000), mkWorld (mem w_init) 2 [EvSync cpu]).
Proof.
  apply (DebugRun_empty_closure g_placeholder clock_us 0 cpu w_init).
  - simpl. lia.
  - reflexivity.
  - reflexivity.
Defined.

(** C2 as stated fails: on a placeholder node, with a clock that advances
    one microsecond per reading, [DebugRun] reads the clock twice and
    returns one microsecond, not zero. *)
Lemma DebugRun_empty_closure_nonzero :
  exists t w',
    DebugRun g_placeholder clock_us 0 w_init = (Ok t, w') /\
    op_exec g_placeholder 0 = None /\
    deq t dzero = false /\
    reads w' = (reads w_init + 2)%nat.
Proof.
  eexists. eexists. split; [reflexivity |].
  split; [reflexivity |]. split; reflexivity.
Qed.

(** ** [DebugGetNodeOutput]: which closures run *)

Lemma filter_nonempty_shift o rest i n :
  filter (fun j => nonempty (o :: rest) (j - i)) (seq (S i) n)
  = filter (fun j => nonempty rest (j - S i)) (seq (S i) n).
Proof.
  apply filter_ext_in. intros j Hj. apply in_seq in Hj.
  replace (j - i)%nat with (S (j - S i)) by lia. reflexivity.
Qed.

Lemma nonempty_head o rest i :
  nonempty (o :: rest) (i - i)
  = match o with Some _ => true | None => false end.
Proof. rewrite Nat.sub_diag. reflexivity. Qed.

(** The loop stops after node [i + n]; it has invoked the non-empty
    closures of nodes [i .. i + n], in order, and read no clock. *)
Lemma run_upto_trace ops : forall i n w,
  (n < length ops)%nat ->
  Z.of_nat (i + n) <= INT_MAX ->
  exists m',
    run_upto ops i (Z.of_nat (i + n)) w
    = (Ok tt,
       mkWorld m' (reads w)
         (trace w ++
          map EvExec
            (filter (fun j => nonempty ops (j - i)) (seq i (S n))))).
Proof.
  induction ops as [| o rest IH]; intros i n w Hn Hmax; simpl in Hn.
  - lia.
  - cbn [run_upto]. unfold bind.
    assert (Hi : int_of_size_t i = Z.of_nat i)
      by (apply int_of_size_t_small; lia).
    set (w1 := snd (match o with
                    | Some f => invoke i f
                    | None => ret tt
                    end w)).
    assert (Hstep : match o with
                    | Some f => invoke i f
                    | None => ret tt
                    end w = (Ok tt, w1)) by (subst w1; now destruct o).
    rewrite Hstep.
    assert (Hw1 : reads w1 = reads w /\
                  trace w1 = trace w ++
                    map EvExec (if nonempty (o :: rest) (i - i)
                                then [i] else [])).
    { subst w1. rewrite nonempty_head. destruct o; simpl; auto.
      now rewrite app_nil_r. }
    destruct Hw1 as (Hr1 & Ht1).
    destruct n as [| n'].
    + rewrite Nat.add_0_r, Hi, Z.eqb_refl.
      exists (mem w1). unfold ret. simpl seq. simpl filter.
      rewrite <- Hr1. destruct (nonempty (o :: rest) (i - i));
        simpl in *; rewrite <- Ht1; now destruct w1.
    + assert (Hne : (int_of_size_t i =? Z.of_nat (i + S n')) = false)
        by (apply Z.eqb_neq; lia).
      rewrite Hne.
      replace (i + S n')%nat with (S i + n')%nat by lia.
      destruct (IH (S i) n' w1) as (m' & Hrec); [lia | lia |].
      rewrite Hrec. exists m'. rewrite Hr1, Ht1.
      f_equal. f_equal.
      rewrite <- app_assoc, <- map_app. f_equal. f_equal.
      rewrite <- (filter_nonempty_shift o).
      change (seq i (S (S n'))) with ([i] ++ seq (S i) (S n')).
      rewrite filter_app. reflexivity.
Qed.

(** C6: for every node [i] in [0, N) that the selector designates (the
    integer itself, or the first node of that name), [debug_get_output]
    invokes exactly the non-empty closures of nodes [0 .. i], in ascending
    order, and nothing else: no closure of a later node, no clock reading,
    no other event. *)
Theorem debug_get_output_runs_prefix (g : GraphRuntime) (sel : Selector)
    (i : nat) (dst : DLTensor) (w : World) :
  designates g sel i ->
  (i < length (op_execs_ g))%nat ->
  Z.of_nat i <= INT_MAX ->
  let w' := snd (debug_get_output g sel dst w) in
  trace w' = trace w ++ map EvExec (filter (has_closure g) (seq 0 (S i))) /\
  reads w' = reads w.
Proof.
  intros Hsel Hlt Hmax.
  assert (Hcore : let w' := snd (DebugGetNodeOutput g (Z.of_nat i) dst w) in
            trace w' = trace w ++
                       map EvExec (filter (has_closure g) (seq 0 (S i))) /\
            reads w' = reads w).
  { unfold DebugGetNodeOutput.
    rewrite size_t_of_int_small by lia. rewrite Nat2Z.id.
    apply Nat.ltb_lt in Hlt as Hltb. rewrite Hltb.
    rewrite (bind_Ok _ _ _ _ _ (CHECK_true _ w)). cbv zeta.
    destruct (run_upto_trace (op_execs_ g) 0 i w Hlt Hmax) as (m' & Hrun).
    simpl (0 + i)%nat in Hrun. rewrite (bind_Ok _ _ _ _ _ Hrun).
    unfold bind.
    assert (Hf : filter (fun j => nonempty (op_execs_ g) (j - 0)) (seq 0 (S i))
                 = filter (has_closure g) (seq 0 (S i))).
    { apply filter_ext. intros j. now rewrite Nat.sub_0_r. }
    rewrite Hf. unfold data_entry. cbn [mem].
    destruct (nth_error (data_entry_ctx g) (uint32_of_int (Z.of_nat i)));
      [| simpl; auto].
    unfold CopyTo.
    match goal with |- context [if ?b then _ else _] => destruct b end;
      simpl; auto. }
  destruct sel as [name | index]; simpl in Hsel; unfold debug_get_output.
  - unfold bind, GetNodeIndex. rewrite Hsel.
    rewrite int_of_size_t_small by lia. exact Hcore.
  - subst index. exact Hcore.
Qed.

(** The spec's scenario: on nodes in, mid, out, asking for "mid" runs the
    closures of in and mid, and not the closure of out. *)
Lemma debug_get_output_runs_prefix_witness :
  trace (snd (debug_get_output g_three (SelStr "mid") dst_init w_init))
  = [EvExec 0; EvExec 1].
Proof.
  apply (debug_get_output_runs_prefix g_three (SelStr "mid") 1
           dst_init w_init).
  - reflexivity.
  - simpl. lia.
  - vm_compute. discriminate.
Defined.

(** ** [DebugGetNodeOutput]: which entry is copied *)

(** The bytes copied out are those of the entry whose id is the node index
    itself ([uint32_t eid = index]). *)
Lemma DebugGetNodeOutput_source (g : GraphRuntime) (index : Z)
    (dst dst' : DLTensor) (w w' : World) :
  DebugGetNodeOutput g index dst w = (Ok dst', w') ->
  dl_data dst' = mem w' (uint32_of_int index).
Proof.
  unfold DebugGetNodeOutput. intros H.
  apply bind_inv_Ok in H. destruct H as ([] & w1 & _ & H). cbv zeta in H.
  apply bind_inv_Ok in H. destruct H as ([] & w2 & _ & H).
  apply bind_inv_Ok in H. destruct H as (src & w3 & Hsrc & H).
  unfold data_entry in Hsrc.
  destruct (nth_error (data_entry_ctx g) (uint32_of_int index));
    [| discriminate].
  injection Hsrc as <- <-. unfold CopyTo in H.
  match type of H with context [if ?b then _ else _] => destruct b end;
    [| discriminate].
  injection H as <- <-. reflexivity.
Qed.

(** Where the first entry of the node is the entry of the same number (as
    in a graph whose nodes all have one output), the copy agrees with
    [GetOutputByLayer]. *)
Lemma DebugGetNodeOutput_agrees_single_output (g : GraphRuntime) (index : Z)
    (dst dst' : DLTensor) (w w' : World) :
  entry_id g (uint32_of_int index) (uint32_of_int 0) = uint32_of_int index ->
  DebugGetNodeOutput g index dst w = (Ok dst', w') ->
  exists t, GetOutputByLayer g index 0 w' = (Ok t, w') /\
            data t = dl_data dst'.
Proof.
  intros Hid H. pose proof (DebugGetNodeOutput_source _ _ _ _ _ _ H) as Hsrc.
  unfold DebugGetNodeOutput in H.
  apply bind_inv_Ok in H. destruct H as ([] & w1 & _ & H). cbv zeta in H.
  apply bind_inv_Ok in H. destruct H as ([] & w2 & _ & H).
  apply bind_inv_Ok in H. destruct H as (src & w3 & Hsrc' & H).
  unfold data_entry in Hsrc'. unfold GetOutputByLayer, data_entry.
  rewrite Hid.
  destruct (nth_error (data_entry_ctx g) (uint32_of_int index)) as [c |];
    [| discriminate].
  eexists. split; [reflexivity |]. simpl. now rewrite Hsrc.
Qed.

(** C1 fails on a graph with a two-output node.  Node 0 writes entries 0
    and 1, node 1 writes entry 2, so [entry_id(1, 0) = 2].  Right after a
    full forward pass, [DebugGetNodeOutput(1, dst)] fills [dst] with the
    bytes of entry 1 (the second output of node 0), while
    [GetOutputByLayer(1, 0)] returns entry 2, before the call as after
    it. *)
Theorem DebugGetNodeOutput_copies_entry_at_node_index :
  let w1 := snd (Run g_split w_init) in
  let r := DebugGetNodeOutput g_split 1 dst_init w1 in
  entry_id g_split 1 0 = 2%nat /\
  fst (GetOutputByLayer g_split 1 0 w1) = Ok (mkNDArray cpu [x20]%byte) /\
  fst r = Ok (mkDLTensor cpu 4 [x11]%byte) /\
  fst (GetOutputByLayer g_split 1 0 (snd r)) = Ok (mkNDArray cpu [x20]%byte) /\
  mem (snd r) 1%nat = [x11]%byte /\
  mem (snd r) 2%nat = [x20]%byte.
Proof. repeat split. Qed.

(** ** Arithmetic of the iteration count *)

Lemma int_of_double_Some (x : double) (z : Z) :
  int_of_double x = Some z ->
  trunc_double x = Some z /\ INT_MIN <= z <= INT_MAX.
Proof.
  unfold int_of_double. destruct (trunc_double x) as [t |]; [| discriminate].
  destruct ((INT_MIN <=? t) && (t <=? INT_MAX)) eqn:E; [| discriminate].
  intros [= <-]. apply andb_true_iff in E. destruct E as (E1 & E2).
  apply Z.leb_le in E1, E2. auto.
Qed.

Lemma next_count_same (m number z : Z) (d : double) :
  dlt dzero d = false -> next_count m number d = Some z -> z = number.
Proof. unfold next_count. intros ->. congruence. Qed.

(** After a positive duration the count does not shrink, and is at least
    the integer part of 1.618 times what it was. *)
Lemma next_count_grows (m number z : Z) (d : double) :
  0 < number -> dlt dzero d = true -> next_count m number d = Some z ->
  number <= z /\ 1618 * number / 1000 <= z.
Proof.
  unfold next_count. intros Hn -> H.
  apply int_of_double_Some in H. destruct H as (Ht & _ & Hmax).
  exact (scaled_number_lower number m z d Hn Ht Hmax).
Qed.

Lemma next_count_ge (m number z : Z) (d : double) :
  0 < number -> next_count m number d = Some z -> number <= z.
Proof.
  intros Hn H. destruct (dlt dzero d) eqn:E.
  - now apply (next_count_grows m number z d).
  - apply next_count_same in H; [lia | exact E].
Qed.

(** ** Frame properties of the benchmark loops *)

Section Stable.

Variable g : GraphRuntime.
Variable clock : nat -> Z.
Variable R : World -> World -> Prop.
Hypothesis R_refl : forall w, R w w.
Hypothesis R_trans : forall a b c, R a b -> R b c -> R a c.
Hypothesis R_now : stable R (now clock).
Hypothesis R_invoke : forall i f, stable R (invoke i f).
Hypothesis R_sync : forall c, stable R (CVMSynchronize c).
Hypothesis R_log_op : forall op q, stable R (LOG_INFO (LogOp op q)).

Lemma stable_ret {A} (a : A) : stable R (ret a).
Proof. intros w. apply R_refl. Qed.

Lemma stable_bind {A B} (m : M A) (k : A -> M B) :
  stable R m -> (forall a, stable R (k a)) -> stable R (bind m k).
Proof.
  intros Hm Hk w. unfold bind. specialize (Hm w).
  destruct (m w) as [[a | msg | | ] w1]; simpl in *; auto.
  eapply R_trans; [exact Hm | apply Hk].
Qed.

Lemma stable_data_entry eid : stable R (data_entry g eid).
Proof.
  intros w. unfold data_entry.
  destruct (nth_error (data_entry_ctx g) eid); apply R_refl.
Qed.

Lemma stable_static_cast_int x : stable R (static_cast_int x).
Proof.
  intros w. unfold static_cast_int.
  destruct (int_of_double x); apply R_refl.
Qed.

Lemma stable_run_ops ops : forall k, stable R (run_ops ops k).
Proof.
  induction ops as [| o rest IH]; intros k; cbn [run_ops].
  - apply stable_ret.
  - apply stable_bind; [| intros _; apply IH].
    destruct o; [apply R_invoke | apply stable_ret].
Qed.

Lemma stable_timed_ops ops : forall k tpo,
  stable R (timed_ops g clock ops k tpo).
Proof.
  induction ops as [| o rest IH]; intros k tpo; cbn [timed_ops].
  - apply stable_ret.
  - apply stable_bind; [| intros t; apply IH].
    destruct o; [| apply stable_ret].
    apply stable_bind; [apply stable_data_entry | intros e].
    apply stable_bind; [apply R_now | intros t0].
    apply stable_bind; [apply R_invoke | intros _].
    apply stable_bind; [apply R_sync | intros _].
    apply stable_bind; [apply R_now | intros t1].
    apply stable_ret.
Qed.

Lemma stable_timed_iterations n : forall tpo,
  stable R (timed_iterations g clock n tpo).
Proof.
  induction n as [| n IH]; intros tpo; cbn [timed_iterations].
  - apply stable_ret.
  - apply stable_bind; [apply stable_timed_ops | intros t; apply IH].
Qed.

Lemma stable_report ops : forall number op tpo,
  stable R (report ops number op tpo).
Proof.
  induction ops as [| o rest IH]; intros number op tpo; cbn [report].
  - apply stable_ret.
  - destruct tpo as [| t tpo']; [apply stable_ret |].
    destruct o.
    + apply stable_bind; [apply R_log_op | intros _].
      apply stable_bind; [apply IH | intros r; apply stable_ret].
    + apply stable_bind; [apply IH | intros r; apply stable_ret].
Qed.

Lemma stable_do_while fuel m : forall number d tpo,
  stable R (do_while g clock fuel m number d tpo).
Proof.
  induction fuel as [| fuel IH]; intros number d tpo; cbn [do_while].
  - intros w. apply R_refl.
  - cbv zeta.
    apply stable_bind.
    { destruct (dlt dzero d);
        [apply stable_static_cast_int | apply stable_ret]. }
    intros number'.
    apply stable_bind; [apply R_now | intros tbegin].
    apply stable_bind; [apply stable_timed_iterations | intros t].
    apply stable_bind; [apply R_now | intros tend].
    destruct (dlt (millis tbegin tend) (double_of_int m));
      [| apply stable_ret].
    apply stable_bind; [apply IH | intros [[n0 t0] h0]; apply stable_ret].
Qed.

End Stable.

Lemma reads_le_now clock : stable reads_le (now clock).
Proof. intros w. unfold reads_le. simpl. lia. Qed.

Lemma reads_le_emit e : stable reads_le (emit e).
Proof. intros w. unfold reads_le. simpl. lia. Qed.

Lemma reads_le_invoke i f : stable reads_le (invoke i f).
Proof. intros w. unfold reads_le. simpl. lia. Qed.

Lemma reads_le_trans a b c : reads_le a b -> reads_le b c -> reads_le a c.
Proof. unfold reads_le. lia. Qed.

Lemma reads_le_timed_iterations g clock n tpo :
  stable reads_le (timed_iterations g clock n tpo).
Proof.
  apply stable_timed_iterations.
  - intros w. unfold reads_le. lia.
  - apply reads_le_trans.
  - apply reads_le_now.
  - apply reads_le_invoke.
  - intros c. apply reads_le_emit.
Qed.

Lemma repeats_logged_app t1 t2 :
  repeats_logged (t1 ++ t2) = repeats_logged t1 ++ repeats_logged t2.
Proof.
  induction t1 as [| e t1 IH]; simpl; [reflexivity |].
  destruct e as [j | c | [i | op q]]; simpl; now rewrite IH.
Qed.

Lemma same_repeats_emit e :
  repeats_logged [e] = [] -> stable same_repeats (emit e).
Proof.
  intros He w. unfold same_repeats. simpl.
  rewrite repeats_logged_app, He. apply app_nil_r.
Qed.

Lemma same_repeats_invoke i f : stable same_repeats (invoke i f).
Proof.
  intros w. unfold same_repeats. simpl.
  rewrite repeats_logged_app. apply app_nil_r.
Qed.

Lemma same_repeats_trans a b c :
  same_repeats a b -> same_repeats b c -> same_repeats a c.
Proof. unfold same_repeats. congruence. Qed.

Lemma same_repeats_do_while g clock fuel m number d tpo :
  stable same_repeats (do_while g clock fuel m number d tpo).
Proof.
  apply stable_do_while.
  - intros w. reflexivity.
  - apply same_repeats_trans.
  - intros w. reflexivity.
  - apply same_repeats_invoke.
  - intros c. now apply same_repeats_emit.
Qed.

Lemma same_repeats_report ops number op tpo :
  stable same_repeats (report ops number op tpo).
Proof.
  apply stable_report.
  - intros w. reflexivity.
  - apply same_repeats_trans.
  - intros o q. now apply same_repeats_emit.
Qed.

Lemma same_repeats_run_ops ops k : stable same_repeats (run_ops ops k).
Proof.
  apply stable_run_ops.
  - intros w. reflexivity.
  - apply same_repeats_trans.
  - apply same_repeats_invoke.
Qed.

(** From a run's equation to the relation between its two states. *)
Lemma stable_run {A} (R : World -> World -> Prop) (m : M A) w r w' :
  stable R m -> m w = (r, w') -> R w w'.
Proof. intros Hs H. specialize (Hs w). now rewrite H in Hs. Qed.

(** ** The accumulator keeps its length *)

Lemma add_at_length v : forall l index,
  length (add_at index v l) = length l.
Proof.
  induction l as [| x l IH]; intros [| i]; simpl; auto.
Qed.

Lemma fill_zero_repeat l : fill_zero l = List.repeat dzero (length l).
Proof.
  induction l as [| x l IH]; simpl; [reflexivity | now rewrite <- IH].
Qed.

Lemma fill_zero_length l : length (fill_zero l) = length l.
Proof. apply length_map. Qed.

Lemma timed_ops_length g clock ops : forall k tpo w tpo' w',
  timed_ops g clock ops k tpo w = (Ok tpo', w') ->
  length tpo' = length tpo.
Proof.
  induction ops as [| o rest IH]; intros k tpo w tpo' w' H;
    cbn [timed_ops] in H.
  - now injection H as <- _.
  - apply bind_inv_Ok in H. destruct H as (t & w1 & Ht & H).
    apply IH in H. rewrite H. clear H IH.
    destruct o as [f |].
    + apply bind_inv_Ok in Ht. destruct Ht as (e & w2 & _ & Ht).
      apply bind_inv_Ok in Ht. destruct Ht as (t0 & w3 & _ & Ht).
      apply bind_inv_Ok in Ht. destruct Ht as ([] & w4 & _ & Ht).
      apply bind_inv_Ok in Ht. destruct Ht as ([] & w5 & _ & Ht).
      apply bind_inv_Ok in Ht. destruct Ht as (t1 & w6 & _ & Ht).
      injection Ht as <- _. apply add_at_length.
    + now injection Ht as <- _.
Qed.

Lemma timed_iterations_length g clock n : forall tpo w tpo' w',
  timed_iterations g clock n tpo w = (Ok tpo', w') ->
  length tpo' = length tpo.
Proof.
  induction n as [| n IH]; intros tpo w tpo' w' H;
    cbn [timed_iterations] in H.
  - now injection H as <- _.
  - apply bind_inv_Ok in H. destruct H as (t & w1 & Ht & H).
    apply IH in H. apply timed_ops_length in Ht. congruence.
Qed.

Lemma report_length ops : forall number op tpo w tpo' w',
  report ops number op tpo w = (Ok tpo', w') ->
  length tpo' = length tpo.
Proof.
  induction ops as [| o rest IH]; intros number op tpo w tpo' w' H;
    cbn [report] in H.
  - now injection H as <- _.
  - destruct tpo as [| t tpo0]; [now injection H as <- _ |].
    destruct o.
    + apply bind_inv_Ok in H. destruct H as ([] & w1 & _ & H).
      apply bind_inv_Ok in H. destruct H as (r & w2 & Hr & H).
      injection H as <- _. apply IH in Hr. simpl. now rewrite Hr.
    + apply bind_inv_Ok in H. destruct H as (r & w2 & Hr & H).
      injection H as <- _. apply IH in Hr. simpl. now rewrite Hr.
Qed.

(** ** What a returned benchmark run looks like *)

Lemma last_cons {A} : forall (l : list A) b a, last (b :: l) a = last l b.
Proof.
  induction l as [| c l IH]; intros b a; [reflexivity |].
  change (last (b :: c :: l) a) with (last (c :: l) a).
  now rewrite (IH c a), (IH c b).
Qed.

(** The guarded assignment of [number] at the head of an attempt. *)
Lemma count_step_inv m number d w number' w1 :
  (if dlt dzero d
   then static_cast_int (scaled_number number m d)
   else ret number) w = (Ok number', w1) ->
  next_count m number d = Some number' /\ w1 = w.
Proof.
  unfold next_count, static_cast_int, ret, undefined.
  destruct (dlt dzero d).
  - destruct (int_of_double _) as [z |]; [| discriminate].
    now intros [= <- <-].
  - now intros [= <- <-].
Qed.

Lemma do_while_inv g clock m fuel : forall number d tpo w n t h w',
  do_while g clock fuel m number d tpo w = (Ok (n, t, h), w') ->
  exists a rest,
    h = a :: rest /\
    next_count m number d = Some (att_number a) /\
    retries m (fill_zero tpo) a rest /\
    Forall measured h /\
    n = final_number a rest /\
    length t = length tpo.
Proof.
  induction fuel as [| fuel IH]; intros number d tpo w n t h w' H;
    cbn [do_while] in H.
  - discriminate.
  - cbv zeta in H.
    apply bind_inv_Ok in H. destruct H as (number' & w1 & Hn & H).
    apply count_step_inv in Hn. destruct Hn as (Hn & ->).
    apply bind_inv_Ok in H. destruct H as (tbegin & w2 & _ & H).
    apply bind_inv_Ok in H. destruct H as (tpo1 & w3 & Hiter & H).
    apply timed_iterations_length in Hiter.
    rewrite fill_zero_length in Hiter.
    apply bind_inv_Ok in H. destruct H as (tend & w4 & _ & H).
    assert (Hmeas : measured (mkAttempt number' (fill_zero tpo)
                                (millis tbegin tend)))
      by (now exists tbegin, tend).
    destruct (dlt (millis tbegin tend) (double_of_int m)) eqn:Ecmp.
    + apply bind_inv_Ok in H. destruct H as ([[n0 t0] h0] & w5 & Hrec & H).
      injection H as <- <- <- _.
      apply IH in Hrec.
      destruct Hrec as (b & rest & -> & Hb & Hret & Hall & -> & Hlen).
      rewrite fill_zero_repeat, Hiter, <- fill_zero_repeat in Hret.
      eexists. exists (b :: rest).
      split; [reflexivity |]. split; [exact Hn |]. split.
      { simpl. split; [reflexivity |].
        split; [exact Ecmp |]. split; [exact Hb | exact Hret]. }
      split; [constructor; [exact Hmeas | exact Hall] |].
      split; [unfold final_number; now rewrite last_cons | congruence].
    + injection H as <- <- <- _.
      eexists. exists [].
      split; [reflexivity |]. split; [exact Hn |].
      split; [simpl; split; [reflexivity | exact Ecmp] |].
      split; [constructor; [exact Hmeas | constructor] |].
      split; [reflexivity | exact Hiter].
Qed.

Lemma repeats_inv g clock m fuel : forall k i number tpo w hists w',
  repeats g clock fuel k i m number tpo w = (Ok hists, w') ->
  length hists = k /\
  starts_from number hists /\
  Forall (repeat_record m (fill_zero tpo)) hists /\
  Forall (Forall measured) hists /\
  repeats_logged (trace w') = repeats_logged (trace w) ++ count_up i k.
Proof.
  induction k as [| k IH]; intros i number tpo w hists w' H;
    cbn [repeats] in H.
  - injection H as <- <-. simpl. rewrite app_nil_r. auto.
  - apply bind_inv_Ok in H. destruct H as ([[n1 t1] h1] & w1 & Hdo & H).
    pose proof (stable_run _ _ _ _ _
                  (same_repeats_do_while _ _ _ _ _ _ _) Hdo) as Hlog1.
    apply do_while_inv in Hdo.
    destruct Hdo as (a & rest & -> & Ha & Hret & Hmeas & -> & Hlen1).
    apply bind_inv_Ok in H. destruct H as ([] & w2 & Hlog & H).
    injection Hlog as <-.
    apply bind_inv_Ok in H. destruct H as (t2 & w3 & Hrep & H).
    pose proof (stable_run _ _ _ _ _
                  (same_repeats_report _ _ _ _) Hrep) as Hlog3.
    apply report_length in Hrep.
    apply bind_inv_Ok in H. destruct H as (later & w4 & Hrec & H).
    injection H as <- <-.
    apply IH in Hrec.
    destruct Hrec as (Hlen & Hstart & Hall & Hmall & Hlogs).
    rewrite fill_zero_repeat, Hrep, Hlen1, <- fill_zero_repeat in Hall.
    unfold same_repeats in Hlog1, Hlog3. cbn [trace] in Hlog3.
    apply next_count_same in Ha; [| reflexivity].
    split; [simpl; now rewrite Hlen |].
    split; [simpl; split; [exact Ha | exact Hstart] |].
    split; [constructor; [exact Hret | exact Hall] |].
    split; [constructor; [exact Hmeas | exact Hmall] |].
    rewrite Hlogs, Hlog3, repeats_logged_app, Hlog1.
    simpl. now rewrite <- app_assoc.
Qed.

Lemma run_individual_Ok_inv g clock fuel number repeat m w hists w' :
  run_individual g clock fuel number repeat m w = (Ok hists, w') ->
  0 < number /\ 0 < repeat /\ 0 <= m /\
  RunIndividual g clock fuel number repeat m w = (Ok hists, w').
Proof.
  unfold run_individual. intros H.
  destruct (0 <? number) eqn:E1; [| discriminate].
  destruct (0 <? repeat) eqn:E2; [| discriminate].
  destruct (0 <=? m) eqn:E3; [| discriminate].
  apply Z.ltb_lt in E1, E2. apply Z.leb_le in E3. auto.
Qed.

(** Every returned call consists of [repeat] records, chained through
    [number], each a sequence of retries from the zeroed accumulator, and
    has logged "Repeat: 0" ... "Repeat: repeat - 1". *)
Lemma RunIndividual_inv g clock fuel number repeat m w hists w' :
  RunIndividual g clock fuel number repeat m w = (Ok hists, w') ->
  length hists = Z.to_nat repeat /\
  starts_from number hists /\
  Forall (repeat_record m (List.repeat dzero (length (op_execs_ g)))) hists /\
  Forall (Forall measured) hists /\
  repeats_logged (trace w')
  = repeats_logged (trace w) ++ count_up 0 (Z.to_nat repeat).
Proof.
  unfold RunIndividual. intros H.
  apply bind_inv_Ok in H. destruct H as ([] & w1 & Hrun & H).
  pose proof (stable_run _ _ _ _ _ (same_repeats_run_ops _ _) Hrun) as Hlog.
  cbv zeta in H. apply repeats_inv in H.
  destruct H as (Hlen & Hstart & Hall & Hmall & Hlogs).
  rewrite fill_zero_repeat, repeat_length in Hall.
  unfold same_repeats in Hlog. rewrite Hlog in Hlogs. auto.
Qed.

(** ** Consequences for the iteration count *)

Lemma retries_numbers m z : forall rest a,
  0 < att_number a ->
  retries m z a rest ->
  ascending_from (att_number a) (map att_number rest) /\
  att_number a <= final_number a rest.
Proof.
  induction rest as [| b rest IH]; intros a Ha Hret.
  - simpl. unfold final_number. simpl. lia.
  - simpl in Hret. destruct Hret as (_ & _ & Hb & Hret).
    assert (Hle : att_number a <= att_number b)
      by (exact (next_count_ge _ _ _ _ Ha Hb)).
    destruct (IH b ltac:(lia) Hret) as (Hasc & Hfin).
    unfold final_number in *. rewrite last_cons. simpl. split; auto. lia.
Qed.

Lemma ascending_from_app : forall l1 l2 x,
  ascending_from x l1 ->
  ascending_from (last l1 x) l2 ->
  ascending_from x (l1 ++ l2).
Proof.
  induction l1 as [| y l1 IH]; intros l2 x H1 H2; simpl in *.
  - exact H2.
  - destruct H1 as (Hxy & H1). split; [exact Hxy |].
    apply IH; [exact H1 |].
    destruct l1; [exact H2 |]. rewrite <- (last_cons _ y x). exact H2.
Qed.

Lemma last_map {A B} (f : A -> B) : forall l a,
  last (map f l) (f a) = f (last l a).
Proof.
  induction l as [| x l IH]; intros a; [reflexivity |].
  destruct l as [| y l]; [reflexivity |].
  change (last (map f (x :: y :: l)) (f a)) with (last (map f (y :: l)) (f a)).
  now rewrite IH.
Qed.

Lemma records_ascending m z : forall hists number,
  0 < number ->
  starts_from number hists ->
  Forall (repeat_record m z) hists ->
  ascending_from number (map att_number (concat hists)).
Proof.
  induction hists as [| h later IH]; intros number Hn Hs Hall.
  - exact I.
  - inversion Hall as [| h' l' Hrec Hlater]; subst.
    destruct h as [| a rest]; [contradiction |].
    simpl in Hs, Hrec. destruct Hs as (Ha & Hs).
    destruct (retries_numbers m z rest a ltac:(lia) Hrec) as (Hasc & Hfin).
    cbn [concat app map]. rewrite map_app.
    simpl. split; [lia |].
    apply ascending_from_app; [exact Hasc |].
    rewrite last_map. apply IH; auto.
    unfold final_number in Hfin. lia.
Qed.



Lemma retries_at m z : forall pre a0 rest a post,
  retries m z a0 rest ->
  a0 :: rest = pre ++ a :: post ->
  att_time_per_op a = z /\
  match post with
  | [] => dlt (att_duration_ms a) (double_of_int m) = false
  | b :: _ =>
      dlt (att_duration_ms a) (double_of_int m) = true /\
      next_count m (att_number a) (att_duration_ms a) = Some (att_number b)
  end.
Proof.
  induction pre as [| p pre IH]; intros a0 rest a post Hret Heq.
  - simpl in Heq. injection Heq as -> ->.
    destruct post as [| b post]; simpl in Hret; tauto.
  - simpl in Heq. injection Heq as -> ->.
    destruct pre as [| q pre].
    + simpl in Hret. destruct Hret as (_ & _ & _ & Hret).
      apply (IH a post a post); [exact Hret | reflexivity].
    + simpl in Hret. destruct Hret as (_ & _ & _ & Hret).
      apply (IH q (pre ++ a :: post) a post); [exact Hret | reflexivity].
Qed.

(** ** The benchmark loop: repeats, retries and the iteration count *)




(** The loop test is made on the rounded duration: 1001000000 ns measure
    1000.9999999999999 ms, which is less than a minimum of 1001 ms, so the
    attempt is retried, with 2 iterations. *)
Lemma rounded_duration_is_retried :
  dlt (millis 0 1001000000) (double_of_int 1001) = true /\
  exists hists w',
    run_individual g_two clock_second 3 1 1 1001 w_init = (Ok hists, w') /\
    map (map att_number) hists = [[1; 2]].
Proof.
  split; [reflexivity |].
  eexists. eexists. split; [vm_compute; reflexivity | reflexivity].
Qed.

(** C4, as the code has it: in every call of [run_individual] that returns,
    every attempt starts from an accumulator of [N] zeros; an attempt that
    measured less than [min_repeat_ms] is followed by a retry, and no other
    is; when the measured duration is positive the retry's count is the
    [int] that [static_cast<int>] makes of
    [max(min_repeat_ms / (duration_ms / number) + 1, number * 1.618)],
    computed in doubles from that duration and the previous count; when it
    is not positive the retry's count is the previous count unchanged. *)
Theorem retry_count_and_zeroed_accumulator (g : GraphRuntime)
    (clock : nat -> Z) (fuel : nat) (number repeat min_repeat_ms : Z)
    (w w' : World) (hists : list (list Attempt))
    (h pre post : list Attempt) (a : Attempt) :
  run_individual g clock fuel number repeat min_repeat_ms w = (Ok hists, w') ->
  In h hists ->
  h = pre ++ a :: post ->
  att_time_per_op a = List.repeat dzero (length (op_execs_ g)) /\
  match post with
  | [] => dlt (att_duration_ms a) (double_of_int min_repeat_ms) = false
  | b :: _ =>
      dlt (att_duration_ms a) (double_of_int min_repeat_ms) = true /\
      if dlt dzero (att_duration_ms a)
      then int_of_double (scaled_number (att_number a) min_repeat_ms
                            (att_duration_ms a))
           = Some (att_number b)
      else att_number b = att_number a
  end.
Proof.
  intros H Hin Hh. apply run_individual_Ok_inv in H.
  destruct H as (_ & _ & _ & H).
  apply RunIndividual_inv in H. destruct H as (_ & _ & Hall & _).
  rewrite Forall_forall in Hall. specialize (Hall h Hin).
  destruct h as [| a0 rest]; [contradiction |]. simpl in Hall.
  destruct (retries_at _ _ pre a0 rest a post Hall Hh) as (Hz & Hpost).
  split; [exact Hz |].
  destruct post as [| b post]; [exact Hpost |].
  destruct Hpost as (Hlt & Hb). split; [exact Hlt |].
  unfold next_count in Hb.
  destruct (dlt dzero (att_duration_ms a)); congruence.
Qed.

(** On the two-node graph with a clock that advances 0.6 ms per reading,
    [run_individual(3, 1, 7)] first measures 4.2 ms; in doubles
    [7 / (4.2 / 3) + 1] is 5.999999999999999, so the retry runs 5
    iterations; the attempts use 3, 5 and 8 iterations. *)
Lemma retry_count_and_zeroed_accumulator_witness :
  let a := mkAttempt 3 [dzero; dzero] (millis 0 4200000) in
  let b := mkAttempt 5 [dzero; dzero] (millis 4800000 11400000) in
  let c := mkAttempt 8 [dzero; dzero] (millis 12000000 22200000) in
  att_time_per_op a = [dzero; dzero] /\
  dlt (att_duration_ms a) (double_of_int 7) = true /\
  int_of_double (scaled_number 3 7 (att_duration_ms a)) = Some 5.
Proof.
  intros a b c.
  assert (Hrun : run_individual g_two clock_steady 4 3 1 7 w_init
                 = (Ok [[a; b; c]],
                    snd (run_individual g_two clock_steady 4 3 1 7 w_init)))
    by (vm_compute; reflexivity).
  destruct (retry_count_and_zeroed_accumulator _ _ _ _ _ _ _ _ _
              [a; b; c] [] [b; c] a Hrun (or_introl eq_refl) eq_refl)
    as (Hz & Hlt & Hb).
  split; [exact Hz | split; [exact Hlt | exact Hb]].
Defined.

(** C4 as stated fails.  On the placeholder graph with a coarse clock,
    the first attempt of [run_individual(2, 1, 1)] measures 0 ms, less than
    the minimum; the retry runs with the count still 2, which is below
    [2 * 1.618], while the claimed maximum is infinite ([1 / (0 / 2)]) and
    has no integer part.  And where the count is recomputed it is the
    integer part of the maximum, not the maximum: in the run above the
    retry uses 5 iterations and the maximum is 5.999999999999999. *)
Lemma retry_keeps_count_after_zero_duration :
  (exists a b w',
      run_individual g_placeholder clock_coarse 3 2 1 1 w_init
      = (Ok [[a; b]], w') /\
      dlt (att_duration_ms a) (double_of_int 1) = true /\
      att_number a = 2 /\ att_number b = 2 /\
      dlt (double_of_int (att_number b))
          (dmul (double_of_int (att_number a)) phi) = true /\
      deq (double_of_int (att_number b))
          (scaled_number (att_number a) 1 (att_duration_ms a)) = false /\
      int_of_double (scaled_number (att_number a) 1 (att_duration_ms a))
      <> Some (att_number b)) /\
  (exists a b c w',
      run_individual g_two clock_steady 4 3 1 7 w_init
      = (Ok [[a; b; c]], w') /\
      dlt (att_duration_ms a) (double_of_int 7) = true /\
      att_number a = 3 /\ att_number b = 5 /\
      deq (double_of_int (att_number b))
          (scaled_number (att_number a) 7 (att_duration_ms a)) = false).
Proof.
  split.
  - eexists. eexists. eexists. split; [vm_compute; reflexivity |].
    split; [reflexivity |]. split; [reflexivity |]. split; [reflexivity |].
    split; [reflexivity |]. split; [reflexivity |].
    intros H. vm_compute in H. discriminate.
  - eexists. eexists. eexists. eexists. split; [vm_compute; reflexivity |].
    split; [reflexivity |]. split; [reflexivity |]. split; [reflexivity |].
    reflexivity.
Qed.

(** C9: within a call of [run_individual] that returns, the iteration
    counts of all attempts, taken in order across all repeats, never
    decrease and start at the caller's [number]; the first attempt of each
    later repeat uses the count the previous repeat ended with. *)
Theorem run_individual_number_nondecreasing (g : GraphRuntime)
    (clock : nat -> Z) (fuel : nat) (number repeat min_repeat_ms : Z)
    (w w' : World) (hists : list (list Attempt)) :
  run_individual g clock fuel number repeat min_repeat_ms w = (Ok hists, w') ->
  ascending_from number (map att_number (concat hists)) /\
  starts_from number hists.
Proof.
  intros H. apply run_individual_Ok_inv in H.
  destruct H as (Hn & _ & _ & H).
  apply RunIndividual_inv in H. destruct H as (_ & Hs & Hall & _).
  split; [| exact Hs].
  eapply records_ascending; [lia | exact Hs | exact Hall].
Qed.

Lemma run_individual_number_nondecreasing_witness :
  exists hists w',
    run_individual g_two clock_tick 3 2 2 10 w_init = (Ok hists, w') /\
    map att_number (concat hists) = [2; 3; 3] /\
    ascending_from 2 (map att_number (concat hists)) /\
    starts_from 2 hists.
Proof.
  eexists. eexists. split; [vm_compute; reflexivity |].
  split; [reflexivity |].
  eapply (run_individual_number_nondecreasing g_two clock_tick 3 2 2 10
            w_init).
  vm_compute. reflexivity.
Defined.

(** ** Counting invocations *)

Lemma count_exec_app index t1 t2 :
  count_exec index (t1 ++ t2)
  = (count_exec index t1 + count_exec index t2)%nat.
Proof.
  induction t1 as [| e t1 IH]; simpl; [reflexivity |].
  destruct e as [j | c | l]; auto.
  destruct (Nat.eqb j index); simpl; now rewrite IH.
Qed.

Lemma hits_spec ops : forall k index,
  hits ops k index
  = if nonempty ops (index - k) && (k <=? index)%nat then 1%nat else 0%nat.
Proof.
  induction ops as [| o rest IH]; intros k index; cbn [hits].
  - unfold nonempty, closure_at. now destruct (index - k)%nat.
  - rewrite IH. destruct (Nat.eqb_spec k index) as [-> | Hne].
    + rewrite Nat.sub_diag.
      assert (H1 : (S index <=? index)%nat = false)
        by (apply Nat.leb_gt; lia).
      rewrite H1, Nat.leb_refl, andb_false_r, andb_true_r.
      unfold nonempty, closure_at. simpl. destruct o; reflexivity.
    + destruct (Nat.leb_spec k index) as [Hle | Hgt].
      * replace (index - k)%nat with (S (index - S k)) by lia.
        assert (H1 : (S k <=? index)%nat = true)
          by (apply Nat.leb_le; lia).
        rewrite H1. unfold nonempty, closure_at. simpl.
        destruct o; reflexivity.
      * assert (H1 : (S k <=? index)%nat = false)
          by (apply Nat.leb_gt; lia).
        rewrite H1, !andb_false_r. destruct o; reflexivity.
Qed.

Lemma hits_has_closure g index :
  hits (op_execs_ g) 0 index = if has_closure g index then 1%nat else 0%nat.
Proof.
  rewrite hits_spec, Nat.sub_0_r. unfold has_closure. simpl.
  now rewrite andb_true_r.
Qed.

Lemma run_ops_count ops : forall k w,
  exists w',
    run_ops ops k w = (Ok tt, w') /\
    forall index,
      count_exec index (trace w')
      = (count_exec index (trace w) + hits ops k index)%nat.
Proof.
  induction ops as [| o rest IH]; intros k w; cbn [run_ops hits].
  - exists w. split; [reflexivity |]. intros index. lia.
  - destruct o as [f |].
    + destruct (IH (S k) (mkWorld (f (mem w)) (reads w)
                            (trace w ++ [EvExec k]))) as (w' & Hrun & Hc).
      exists w'. split; [exact Hrun |].
      intros index. rewrite Hc. cbn [trace]. rewrite count_exec_app. simpl.
      destruct (Nat.eqb k index); lia.
    + destruct (IH (S k) w) as (w' & Hrun & Hc).
      exists w'. split; [exact Hrun |].
      intros index. rewrite Hc. lia.
Qed.

Lemma timed_ops_count g clock ops : forall k tpo w,
  (forall j f, closure_at ops j = Some f ->
               (entry_id g (k + j) 0 < length (data_entry_ctx g))%nat) ->
  exists tpo' w',
    timed_ops g clock ops k tpo w = (Ok tpo', w') /\
    forall index,
      count_exec index (trace w')
      = (count_exec index (trace w) + hits ops k index)%nat.
Proof.
  induction ops as [| o rest IH]; intros k tpo w Hlive; cbn [timed_ops hits].
  - exists tpo, w. split; [reflexivity |]. intros index. lia.
  - assert (Hrest : forall j f, closure_at rest j = Some f ->
              (entry_id g (S k + j) 0 < length (data_entry_ctx g))%nat).
    { intros j f Hj. replace (S k + j)%nat with (k + S j)%nat by lia.
      apply (Hlive (S j) f). exact Hj. }
    destruct o as [f |].
    + assert (Hc : exists c,
                nth_error (data_entry_ctx g) (entry_id g k 0) = Some c).
      { specialize (Hlive 0%nat f eq_refl). rewrite Nat.add_0_r in Hlive.
        destruct (nth_error (data_entry_ctx g) (entry_id g k 0)) eqn:E;
          [eauto |].
        apply nth_error_None in E. lia. }
      destruct Hc as (c & Hc).
      destruct (IH (S k)
                  (add_at k (dmul (seconds (clock (reads w))
                                           (clock (S (reads w))))
                                  (double_of_int 1000)) tpo)
                  (mkWorld (f (mem w)) (S (S (reads w)))
                           ((trace w ++ [EvExec k]) ++ [EvSync c]))
                  Hrest) as (tpo' & w' & Hrun & Hcount).
      exists tpo', w'. split.
      * unfold bind at 1. unfold bind at 1, data_entry at 1.
        rewrite Hc. exact Hrun.
      * intros index. rewrite Hcount. cbn [trace].
        rewrite !count_exec_app. simpl. destruct (Nat.eqb k index); lia.
    + destruct (IH (S k) tpo w Hrest) as (tpo' & w' & Hrun & Hcount).
      exists tpo', w'. split; [exact Hrun |].
      intros index. rewrite Hcount. lia.
Qed.

Lemma timed_iterations_count g clock :
  entries_live g ->
  forall n tpo w,
  exists tpo' w',
    timed_iterations g clock n tpo w = (Ok tpo', w') /\
    forall index,
      count_exec index (trace w')
      = (count_exec index (trace w) + n * hits (op_execs_ g) 0 index)%nat.
Proof.
  intros Hlive. induction n as [| n IH]; intros tpo w;
    cbn [timed_iterations].
  - exists tpo, w. split; [reflexivity |]. intros index. lia.
  - destruct (timed_ops_count g clock (op_execs_ g) 0 tpo w)
      as (tpo1 & w1 & Hrun1 & Hc1).
    { intros j f Hj. apply (Hlive j f). exact Hj. }
    destruct (IH tpo1 w1) as (tpo' & w' & Hrun & Hc).
    exists tpo', w'. split.
    + rewrite (bind_Ok _ _ _ _ _ Hrun1). exact Hrun.
    + intros index. rewrite Hc, Hc1. lia.
Qed.

Lemma same_execs_report ops number op tpo :
  stable same_execs (report ops number op tpo).
Proof.
  apply stable_report.
  - intros w index. reflexivity.
  - intros a b c Hab Hbc index. now rewrite Hbc, Hab.
  - intros o q w index. simpl. rewrite count_exec_app. simpl. lia.
Qed.

Lemma report_Ok ops : forall number op tpo w,
  exists tpo' w', report ops number op tpo w = (Ok tpo', w').
Proof.
  induction ops as [| o rest IH]; intros number op tpo w; cbn [report].
  - unfold ret. eauto.
  - destruct tpo as [| t tpo0]; [unfold ret; eauto |].
    destruct o.
    + unfold bind at 1. simpl.
      destruct (IH number (op + 1) tpo0
                  (mkWorld (mem w) (reads w)
                     (trace w
                      ++ [EvLog (LogOp op (ddiv t (double_of_int number)))])))
        as (r & w' & Hr).
      rewrite (bind_Ok _ _ _ _ _ Hr). unfold ret. eauto.
    + destruct (IH number op tpo0 w) as (r & w' & Hr).
      rewrite (bind_Ok _ _ _ _ _ Hr). unfold ret. eauto.
Qed.

(** ** The benchmark loop without a minimum duration *)

Lemma do_while_min0 g clock :
  entries_live g -> monotone clock ->
  forall fuel number tpo w,
  exists tpo' w' a,
    do_while g clock (S fuel) 0 number dzero tpo w
    = (Ok (number, tpo', [a]), w') /\
    att_number a = number /\
    forall index,
      count_exec index (trace w')
      = (count_exec index (trace w)
         + Z.to_nat number * hits (op_execs_ g) 0 index)%nat.
Proof.
  intros Hlive Hmono fuel number tpo w. cbn [do_while]. cbv zeta.
  change (dlt dzero dzero) with false.
  rewrite (bind_Ok _ _ w number w eq_refl).
  set (w1 := mkWorld (mem w) (S (reads w)) (trace w)).
  assert (Hnow1 : now clock w = (Ok (clock (reads w)), w1)) by reflexivity.
  rewrite (bind_Ok _ _ _ _ _ Hnow1).
  destruct (timed_iterations_count g clock Hlive (Z.to_nat number)
              (fill_zero tpo) w1) as (tpo' & w2 & Hit & Hc).
  rewrite (bind_Ok _ _ _ _ _ Hit).
  pose proof (stable_run _ _ _ _ _
                (reads_le_timed_iterations _ _ _ _) Hit) as Hr.
  unfold reads_le in Hr. simpl in Hr.
  set (w3 := mkWorld (mem w2) (S (reads w2)) (trace w2)).
  assert (Hnow2 : now clock w2 = (Ok (clock (reads w2)), w3)) by reflexivity.
  rewrite (bind_Ok _ _ _ _ _ Hnow2).
  assert (Hle : clock (reads w) <= clock (reads w2))
    by (apply Hmono; lia).
  pose proof (positive_sign_not_lt _ (millis_positive_sign _ _ Hle)) as Hcmp.
  change (double_of_int 0) with dzero. rewrite Hcmp.
  eexists. eexists. eexists.
  split; [reflexivity |]. split; [reflexivity |].
  intros index. cbn [trace]. now rewrite Hc.
Qed.

Lemma repeats_min0 g clock :
  entries_live g -> monotone clock ->
  forall fuel number k i tpo w,
  exists hists w',
    repeats g clock (S fuel) k i 0 number tpo w = (Ok hists, w') /\
    length hists = k /\
    Forall (fun h => exists a, h = [a] /\ att_number a = number) hists /\
    forall index,
      count_exec index (trace w')
      = (count_exec index (trace w)
         + k * (Z.to_nat number * hits (op_execs_ g) 0 index))%nat.
Proof.
  intros Hlive Hmono fuel number.
  induction k as [| k IH]; intros i tpo w; cbn [repeats].
  - exists [], w. repeat split; auto.
  - destruct (do_while_min0 g clock Hlive Hmono fuel number tpo w)
      as (tpo1 & w1 & a & Hdo & Ha & Hc1).
    rewrite (bind_Ok _ _ _ _ _ Hdo). cbv beta iota.
    set (w2 := mkWorld (mem w1) (reads w1)
                 (trace w1 ++ [EvLog (LogRepeat i)])).
    assert (Hlog : LOG_INFO (LogRepeat i) w1 = (Ok tt, w2)) by reflexivity.
    rewrite (bind_Ok _ _ _ _ _ Hlog).
    destruct (report_Ok (op_execs_ g) number 0 tpo1 w2)
      as (tpo2 & w3 & Hrep).
    rewrite (bind_Ok _ _ _ _ _ Hrep).
    pose proof (stable_run _ _ _ _ _ (same_execs_report _ _ _ _) Hrep)
      as Hc3.
    destruct (IH (i + 1) tpo2 w3) as (later & w4 & Hrec & Hlen & Hall & Hc4).
    rewrite (bind_Ok _ _ _ _ _ Hrec).
    exists ([a] :: later), w4.
    split; [reflexivity |]. split; [simpl; now rewrite Hlen |].
    split; [constructor; [now exists a | exact Hall] |].
    intros index. rewrite Hc4, (Hc3 index). subst w2. cbn [trace].
    rewrite count_exec_app, Hc1. simpl. lia.
Qed.

(** C5: for [number > 0] and [repeat > 0], with no minimum duration, on a
    graph whose closure-bearing nodes have their first entry in the table
    and with a clock that never goes backwards, [run_individual] returns
    (any positive fuel suffices: no attempt is retried); each of the
    [repeat] repeats consists of exactly one attempt, of [number]
    iterations; every non-empty closure has been invoked exactly
    [1 + number * repeat] times and no empty slot has been invoked. *)
Theorem run_individual_min0_invocations (g : GraphRuntime)
    (clock : nat -> Z) (fuel : nat) (number repeat : Z) (w : World) :
  0 < number -> 0 < repeat ->
  entries_live g -> monotone clock ->
  exists hists w',
    run_individual g clock (S fuel) number repeat 0 w = (Ok hists, w') /\
    length hists = Z.to_nat repeat /\
    Forall (fun h => exists a, h = [a] /\ att_number a = number) hists /\
    forall index,
      Z.of_nat (count_exec index (trace w'))
      = Z.of_nat (count_exec index (trace w))
        + (if has_closure g index then 1 + number * repeat else 0).
Proof.
  intros Hn Hr Hlive Hmono.
  rewrite run_individual_valid by lia. unfold RunIndividual, Run.
  destruct (run_ops_count (op_execs_ g) 0 w) as (w1 & Hrun & Hc1).
  rewrite (bind_Ok _ _ _ _ _ Hrun). cbv zeta.
  destruct (repeats_min0 g clock Hlive Hmono fuel number (Z.to_nat repeat) 0
              (List.repeat dzero (length (op_execs_ g))) w1)
    as (hists & w' & Hrep & Hlen & Hall & Hc).
  exists hists, w'. repeat split; auto.
  intros index. rewrite Hc, Hc1, hits_has_closure.
  destruct (has_closure g index).
  - rewrite !Nat2Z.inj_add, Nat2Z.inj_mul, Nat.mul_1_r, !Z2Nat.id by lia.
    simpl Z.of_nat. lia.
  - rewrite !Nat.mul_0_r, !Nat.add_0_r. lia.
Qed.

Lemma entries_live_g_two : entries_live g_two.
Proof.
  intros index f H.
  destruct index as [| [| [| index]]]; try discriminate; simpl; lia.
Qed.

Lemma monotone_clock_us : monotone clock_us.
Proof. intros i j H. unfold clock_us. lia. Qed.

(** The spec's scenario: closures A (empty) and B; [run_individual(4, 2, 0)]
    invokes B exactly 9 times. *)
Lemma run_individual_min0_invocations_witness :
  exists hists w',
    run_individual g_two clock_us 1 4 2 0 w_init = (Ok hists, w') /\
    length hists = 2%nat /\
    count_exec 1 (trace w') = 9%nat /\
    count_exec 0 (trace w') = 0%nat.
Proof.
  destruct (run_individual_min0_invocations g_two clock_us 0 4 2 w_init)
    as (hists & w' & Hrun & Hlen & _ & Hc);
    [lia | lia | exact entries_live_g_two | exact monotone_clock_us |].
  exists hists, w'. split; [exact Hrun |]. split; [exact Hlen |].
  pose proof (Hc 1%nat) as H1. pose proof (Hc 0%nat) as H0.
  simpl in H1, H0. lia.
Defined.

(** * Further properties of the debug layer *)

(** ** [DebugRun] on a node with a closure *)

(** X1: on a node [index < N] that has a closure, [DebugRun] invokes that
    closure exactly once and no other, then synchronises the device of the
    node's first entry, and reads the clock exactly twice; it returns the
    seconds between the two readings, which is not negative when the clock
    never goes backwards. *)
Theorem DebugRun_nonempty_closure (g : GraphRuntime) (clock : nat -> Z)
    (index : nat) (f : Closure) (c : CVMContext) (w : World) :
  (index < length (op_execs_ g))%nat ->
  op_exec g index = Some f ->
  nth_error (data_entry_ctx g) (entry_id g index 0) = Some c ->
  let t0 := clock (reads w) in
  let t1 := clock (S (reads w)) in
  DebugRun g clock index w
  = (Ok (seconds t0 t1),
     mkWorld (f (mem w)) (S (S (reads w)))
             (trace w ++ [EvExec index; EvSync c])) /\
  (monotone clock -> dle dzero (seconds t0 t1) = true).
Proof.
  intros Hlt Hf Hentry t0 t1. split.
  - unfold DebugRun, bind, data_entry.
    apply Nat.ltb_lt in Hlt. rewrite Hlt. simpl.
    rewrite Hentry, Hf. simpl. now rewrite <- app_assoc.
  - intros Hmono. apply positive_sign_le, seconds_positive_sign.
    apply Hmono. lia.
Qed.

Lemma DebugRun_nonempty_closure_witness :
  DebugRun g_two clock_us 1 w_init
  = (Ok (seconds 0 1000),
     mkWorld (store_entry 1 [x2a]%byte (mem w_init)) 2
             [EvExec 1; EvSync cpu]).
Proof.
  apply (DebugRun_nonempty_closure g_two clock_us 1
           (store_entry 1 [x2a]%byte) cpu w_init).
  - simpl. lia.
  - reflexivity.
  - reflexivity.
Defined.

(** X2: a negative index does not slip through the bounds checks: cast to
    [size_t] it is at least 2^63, so on any graph with at most 2^63
    closures both [debug_run] and [debug_get_output] fail fatally and
    leave the state as it was. *)
Theorem negative_index_is_fatal (g : GraphRuntime) (clock : nat -> Z)
    (z : Z) (dst : DLTensor) (w : World) :
  Z.of_nat (length (op_execs_ g)) <= 2 ^ 63 ->
  - 2 ^ 63 <= z < 0 ->
  (exists msg, debug_run g clock z w = (Fatal msg, w)) /\
  (exists msg, debug_get_output g (SelInt z) dst w = (Fatal msg, w)).
Proof.
  intros HN Hz.
  assert (Hcast : (size_t_of_int z <? length (op_execs_ g))%nat = false).
  { apply Nat.ltb_ge. unfold size_t_of_int.
    rewrite <- (Z_mod_plus_full z 1 (2 ^ 64)).
    rewrite Z.mod_small by lia. lia. }
  unfold debug_run, debug_get_output, DebugRun, DebugGetNodeOutput, bind.
  rewrite Hcast. split; eexists; reflexivity.
Qed.

Lemma negative_index_is_fatal_witness :
  (exists msg, debug_run g_three clock_us (-1) w_init = (Fatal msg, w_init)) /\
  (exists msg,
      debug_get_output g_three (SelInt (-1)) dst_init w_init
      = (Fatal msg, w_init)).
Proof.
  apply (negative_index_is_fatal g_three clock_us (-1) dst_init w_init).
  - vm_compute. discriminate.
  - lia.
Defined.

(** X3: [DebugRun] reads the device of the node's first entry before
    anything else: on a valid index whose entry is outside [data_entry_]
    the call is undefined at that point, with no clock read and no closure
    invoked. *)
Theorem DebugRun_missing_entry (g : GraphRuntime) (clock : nat -> Z)
    (index : nat) (w : World) :
  (index < length (op_execs_ g))%nat ->
  (length (data_entry_ctx g) <= entry_id g index 0)%nat ->
  DebugRun g clock index w = (Undefined, w).
Proof.
  intros Hlt Hout. unfold DebugRun, bind, data_entry.
  apply Nat.ltb_lt in Hlt. rewrite Hlt. simpl.
  apply nth_error_None in Hout. now rewrite Hout.
Qed.

Lemma DebugRun_missing_entry_witness :
  DebugRun (mkGraphRuntime (op_execs_ g_split) (nodes_ g_split) [cpu; cpu]
                           two_output_ids)
           clock_us 1 w_init
  = (Undefined, w_init).
Proof.
  apply DebugRun_missing_entry.
  - simpl. lia.
  - simpl. lia.
Defined.

(** ** [debug_get_output] by name *)

(** X4: a call of [debug_get_output] with a name is the call with the index
    of the first node carrying that name: for every [i] whose node carries
    the name while no node before it does, the two calls agree; when no
    node carries the name, the call fails fatally with the lookup's message
    and the state is untouched: no closure has run. *)
Theorem debug_get_output_by_name (g : GraphRuntime) (name : string)
    (dst : DLTensor) (w : World) :
  Z.of_nat (length (nodes_ g)) <= INT_MAX ->
  (forall i,
      nth_error (nodes_ g) i = Some name ->
      (forall j, (j < i)%nat -> nth_error (nodes_ g) j <> Some name) ->
      debug_get_output g (SelStr name) dst w
      = debug_get_output g (SelInt (Z.of_nat i)) dst w) /\
  ((forall j, nth_error (nodes_ g) j <> Some name) ->
   debug_get_output g (SelStr name) dst w
   = (Fatal ("cannot find " ++ name ++ " among nodex"), w)).
Proof.
  intros Hsize. unfold debug_get_output, GetNodeIndex, bind. split.
  - intros i Hi Hfirst.
    destruct (find_node (nodes_ g) 0 name) as [k |] eqn:E.
    + apply find_node_Some in E. destruct E as (_ & Hk & Hmin).
      rewrite Nat.sub_0_r in Hk.
      assert (Hki : k = i).
      { destruct (Nat.lt_trichotomy k i) as [Hlt | [Heq | Hgt]];
          [| exact Heq |].
        - exfalso. exact (Hfirst k Hlt Hk).
        - exfalso. exact (Hmin i ltac:(lia) Hi). }
      subst k.
      assert (Hlt : (i < length (nodes_ g))%nat)
        by (apply nth_error_Some; congruence).
      rewrite int_of_size_t_small by lia. reflexivity.
    + exfalso. exact (find_node_None _ _ _ E i Hi).
  - intros Hnone.
    destruct (find_node (nodes_ g) 0 name) as [k |] eqn:E; [| reflexivity].
    apply find_node_Some in E. destruct E as (_ & Hk & _).
    rewrite Nat.sub_0_r in Hk. exfalso. exact (Hnone k Hk).
Qed.

Lemma debug_get_output_by_name_witness :
  debug_get_output g_repeated (SelStr "conv") dst_init w_init
  = debug_get_output g_repeated (SelInt 1) dst_init w_init /\
  debug_get_output g_repeated (SelStr "pool") dst_init w_init
  = (Fatal "cannot find pool among nodex", w_init).
Proof.
  assert (Hsize : Z.of_nat (length (nodes_ g_repeated)) <= INT_MAX)
    by (vm_compute; discriminate).
  split.
  - apply (proj1 (debug_get_output_by_name g_repeated "conv" dst_init w_init
                    Hsize) 1%nat).
    + reflexivity.
    + intros j Hj. destruct j as [| j]; [discriminate | lia].
  - apply (proj2 (debug_get_output_by_name g_repeated "pool" dst_init w_init
                    Hsize)).
    intros j. do 3 (destruct j as [| j]; [discriminate |]).
    destruct j; discriminate.
Defined.

(** ** [DebugGetNodeOutput]: the storage it leaves *)

Lemma apply_closures_cons o rest m :
  apply_closures (o :: rest) m
  = apply_closures rest (match o with Some f => f m | None => m end).
Proof. reflexivity. Qed.

Lemma run_upto_mem ops : forall i n w,
  (n < length ops)%nat ->
  Z.of_nat (i + n) <= INT_MAX ->
  mem (snd (run_upto ops i (Z.of_nat (i + n)) w))
  = apply_closures (firstn (S n) ops) (mem w).
Proof.
  induction ops as [| o rest IH]; intros i n w Hn Hmax; simpl in Hn.
  - lia.
  - cbn [run_upto firstn]. rewrite apply_closures_cons. unfold bind.
    assert (Hi : int_of_size_t i = Z.of_nat i)
      by (apply int_of_size_t_small; lia).
    set (w1 := snd (match o with
                    | Some f => invoke i f
                    | None => ret tt
                    end w)).
    assert (Hstep : match o with
                    | Some f => invoke i f
                    | None => ret tt
                    end w = (Ok tt, w1)) by (subst w1; now destruct o).
    assert (Hm1 : mem w1 = match o with Some f => f (mem w) | None => mem w end)
      by (subst w1; now destruct o).
    rewrite Hstep, <- Hm1.
    destruct n as [| n'].
    + rewrite Nat.add_0_r, Hi, Z.eqb_refl. reflexivity.
    + assert (Hne : (int_of_size_t i =? Z.of_nat (i + S n')) = false)
        by (apply Z.eqb_neq; lia).
      rewrite Hne.
      replace (i + S n')%nat with (S i + n')%nat by lia.
      apply IH; lia.
Qed.

(** X5: for a node [index] in [0, N), whatever the copy-out does,
    [DebugGetNodeOutput] leaves the storage that results from applying the
    closures of nodes [0 .. index] in order to the storage it found; the
    closures of later nodes have not touched it. *)
Theorem DebugGetNodeOutput_storage (g : GraphRuntime) (index : nat)
    (dst : DLTensor) (w : World) :
  (index < length (op_execs_ g))%nat ->
  Z.of_nat index <= INT_MAX ->
  mem (snd (DebugGetNodeOutput g (Z.of_nat index) dst w))
  = apply_closures (firstn (S index) (op_execs_ g)) (mem w).
Proof.
  intros Hlt Hmax. unfold DebugGetNodeOutput.
  rewrite size_t_of_int_small by lia. rewrite Nat2Z.id.
  apply Nat.ltb_lt in Hlt as Hltb. rewrite Hltb.
  rewrite (bind_Ok _ _ _ _ _ (CHECK_true _ w)). cbv zeta.
  pose proof (run_upto_mem (op_execs_ g) 0 index w Hlt Hmax) as Hmem.
  simpl (0 + index)%nat in Hmem.
  unfold bind at 1.
  destruct (run_upto (op_execs_ g) 0 (Z.of_nat index) w)
    as [[[] | msg | | ] w1]; simpl in Hmem; try exact Hmem.
  unfold bind, data_entry.
  destruct (nth_error (data_entry_ctx g) (uint32_of_int (Z.of_nat index)));
    [| exact Hmem].
  unfold CopyTo.
  match goal with |- context [if ?b then _ else _] => destruct b end;
    exact Hmem.
Qed.

Lemma DebugGetNodeOutput_storage_witness :
  let m := mem (snd (DebugGetNodeOutput g_three 1 dst_init w_init)) in
  m 0%nat = [x01]%byte /\ m 1%nat = [x02]%byte /\ m 2%nat = [].
Proof.
  intros m. subst m.
  assert (Hlt : (1 < length (op_execs_ g_three))%nat) by (simpl; lia).
  assert (Hmax : Z.of_nat 1 <= INT_MAX) by (vm_compute; discriminate).
  pose proof (DebugGetNodeOutput_storage g_three 1 dst_init w_init Hlt Hmax)
    as H.
  change (Z.of_nat 1) with 1 in H. rewrite H. repeat split.
Defined.

(** ** A clock that does not advance *)

Lemma millis_same_short (c m : Z) :
  0 < m -> dlt (millis c c) (double_of_int m) = true.
Proof. intros Hm. rewrite millis_same. now apply dlt_zero_double_of_int. Qed.

Lemma do_while_stopped_clock g clock c0 m :
  entries_live g -> (forall k, clock k = c0) -> 0 < m ->
  forall fuel number d tpo w,
    dlt dzero d = false ->
    fst (do_while g clock fuel m number d tpo w) = OutOfFuel.
Proof.
  intros Hlive Hconst Hm.
  induction fuel as [| fuel IH]; intros number d tpo w Hd;
    cbn [do_while]; [reflexivity |].
  cbv zeta.
  assert (Hn : (if dlt dzero d
                then static_cast_int (scaled_number number m d)
                else ret number) w = (Ok number, w))
    by (rewrite Hd; reflexivity).
  rewrite (bind_Ok _ _ _ _ _ Hn).
  set (w1 := mkWorld (mem w) (S (reads w)) (trace w)).
  assert (Hnow1 : now clock w = (Ok c0, w1))
    by (unfold now; now rewrite Hconst).
  rewrite (bind_Ok _ _ _ _ _ Hnow1).
  destruct (timed_iterations_count g clock Hlive (Z.to_nat number)
              (fill_zero tpo) w1) as (tpo' & w2 & Hit & _).
  rewrite (bind_Ok _ _ _ _ _ Hit).
  set (w3 := mkWorld (mem w2) (S (reads w2)) (trace w2)).
  assert (Hnow2 : now clock w2 = (Ok c0, w3))
    by (unfold now; now rewrite Hconst).
  rewrite (bind_Ok _ _ _ _ _ Hnow2).
  rewrite (millis_same_short c0 m Hm).
  unfold bind.
  specialize (IH number (millis c0 c0) tpo' w3).
  rewrite millis_same in IH. specialize (IH eq_refl).
  rewrite millis_same.
  destruct (do_while g clock fuel m number dzero tpo' w3)
    as [[r | msg | | ] w4]; simpl in IH; try discriminate.
  reflexivity.
Qed.

(** X6: when the clock does not advance and a minimum duration is asked
    for, [run_individual] never returns: every attempt measures 0 ms, which
    is short of the minimum and, not being positive, leaves [number] as it
    is, so the same attempt is made again without end (whatever the fuel,
    the loop is still running when it is spent). *)
Theorem run_individual_stopped_clock_never_returns (g : GraphRuntime)
    (clock : nat -> Z) (c0 : Z) (fuel : nat)
    (number repeat min_repeat_ms : Z) (w : World) :
  entries_live g ->
  (forall k, clock k = c0) ->
  0 < number -> 0 < repeat -> 0 < min_repeat_ms ->
  fst (run_individual g clock fuel number repeat min_repeat_ms w) = OutOfFuel.
Proof.
  intros Hlive Hconst Hn Hr Hm.
  rewrite run_individual_valid by lia. unfold RunIndividual, Run.
  destruct (run_ops_count (op_execs_ g) 0 w) as (w1 & Hrun & _).
  rewrite (bind_Ok _ _ _ _ _ Hrun). cbv zeta.
  destruct (Z.to_nat repeat) as [| k] eqn:Ek; [lia |].
  cbn [repeats]. unfold bind.
  pose proof (do_while_stopped_clock g clock c0 min_repeat_ms Hlive Hconst Hm
                fuel number dzero
                (List.repeat dzero (length (op_execs_ g))) w1
                eq_refl) as Hdo.
  destruct (do_while g clock fuel min_repeat_ms number dzero
              (List.repeat dzero (length (op_execs_ g))) w1)
    as [[r | msg | | ] w2]; simpl in Hdo; try discriminate.
  reflexivity.
Qed.

Lemma run_individual_stopped_clock_never_returns_witness :
  fst (run_individual g_two clock_stopped 25 1 1 1 w_init) = OutOfFuel.
Proof.
  apply (run_individual_stopped_clock_never_returns g_two clock_stopped 0);
    try lia.
  - exact entries_live_g_two.
  - reflexivity.
Defined.

(** ** The events of a benchmark run *)

Lemma iterate_add {A} (l : list A) : forall n1 n2,
  iterate (n1 + n2) l = iterate n1 l ++ iterate n2 l.
Proof.
  induction n1 as [| n1 IH]; intros n2; simpl; [reflexivity |].
  now rewrite IH, app_assoc.
Qed.

Lemma strip_logs_app t1 t2 :
  strip_logs (t1 ++ t2) = strip_logs t1 ++ strip_logs t2.
Proof.
  induction t1 as [| e t1 IH]; simpl; [reflexivity |].
  destruct e; simpl; now rewrite IH.
Qed.

Lemma strip_logs_exec_events ops : forall k,
  strip_logs (exec_events ops k) = exec_events ops k.
Proof.
  induction ops as [| [f |] rest IH]; intros k; simpl; auto.
  now rewrite IH.
Qed.

Lemma strip_logs_pass_events g ops : forall k,
  strip_logs (pass_events g ops k) = pass_events g ops k.
Proof.
  induction ops as [| [f |] rest IH]; intros k; simpl; auto.
  now rewrite IH.
Qed.

Lemma strip_logs_iterate g ops k : forall n,
  strip_logs (iterate n (pass_events g ops k))
  = iterate n (pass_events g ops k).
Proof.
  induction n as [| n IH]; simpl; [reflexivity |].
  now rewrite strip_logs_app, strip_logs_pass_events, IH.
Qed.

Lemma iterations_of_app h1 h2 :
  iterations_of (h1 ++ h2) = (iterations_of h1 + iterations_of h2)%nat.
Proof. induction h1 as [| a h1 IH]; simpl; [reflexivity | lia]. Qed.

Lemma data_entry_inv g eid w e w1 :
  data_entry g eid w = (Ok e, w1) ->
  w1 = w /\ nth_error (data_entry_ctx g) eid = Some (ctx e).
Proof.
  unfold data_entry. destruct (nth_error (data_entry_ctx g) eid) as [c |].
  - intros [= <- <-]. auto.
  - discriminate.
Qed.

Lemma run_ops_events ops : forall k w,
  fst (run_ops ops k w) = Ok tt /\
  trace (snd (run_ops ops k w)) = trace w ++ exec_events ops k /\
  reads (snd (run_ops ops k w)) = reads w.
Proof.
  induction ops as [| o rest IH]; intros k w; cbn [run_ops exec_events].
  - simpl. now rewrite app_nil_r.
  - destruct o as [f |].
    + unfold bind at 1 2 3. simpl.
      destruct (IH (S k) (mkWorld (f (mem w)) (reads w)
                            (trace w ++ [EvExec k]))) as (H1 & H2 & H3).
      rewrite H1, H2, H3. simpl. now rewrite <- app_assoc.
    + unfold bind at 1 2 3. simpl. apply IH.
Qed.

Lemma timed_ops_events g clock ops : forall k tpo w tpo' w',
  timed_ops g clock ops k tpo w = (Ok tpo', w') ->
  trace w' = trace w ++ pass_events g ops k /\
  reads w' = (reads w + 2 * closures_in ops)%nat.
Proof.
  induction ops as [| o rest IH]; intros k tpo w tpo' w' H;
    cbn [timed_ops pass_events closures_in] in *.
  - injection H as _ <-. rewrite app_nil_r. split; [reflexivity | lia].
  - apply bind_inv_Ok in H. destruct H as (t & w1 & Ht & H).
    apply IH in H. destruct H as (Htr & Hrd).
    destruct o as [f |].
    + apply bind_inv_Ok in Ht. destruct Ht as (e & w2 & He & Ht).
      apply data_entry_inv in He. destruct He as (-> & He).
      apply bind_inv_Ok in Ht. destruct Ht as (t0 & w3 & Hn0 & Ht).
      injection Hn0 as _ <-.
      apply bind_inv_Ok in Ht. destruct Ht as ([] & w4 & Hi & Ht).
      injection Hi as <-.
      apply bind_inv_Ok in Ht. destruct Ht as ([] & w5 & Hs & Ht).
      injection Hs as <-.
      apply bind_inv_Ok in Ht. destruct Ht as (t1 & w6 & Hn1 & Ht).
      injection Hn1 as _ <-. injection Ht as _ <-.
      simpl in Htr, Hrd. rewrite Htr, Hrd.
      unfold ctx_at. rewrite He. split; [| lia].
      now rewrite <- !app_assoc.
    + injection Ht as _ <-. auto.
Qed.

Lemma timed_iterations_events g clock : forall n tpo w tpo' w',
  timed_iterations g clock n tpo w = (Ok tpo', w') ->
  trace w' = trace w ++ iterate n (pass_events g (op_execs_ g) 0) /\
  reads w' = (reads w + n * (2 * closures_in (op_execs_ g)))%nat.
Proof.
  induction n as [| n IH]; intros tpo w tpo' w' H;
    cbn [timed_iterations iterate] in *.
  - injection H as _ <-. rewrite app_nil_r. split; [reflexivity | lia].
  - apply bind_inv_Ok in H. destruct H as (t & w1 & Ht & H).
    apply timed_ops_events in Ht. destruct Ht as (Htr1 & Hrd1).
    apply IH in H. destruct H as (Htr & Hrd).
    rewrite Htr, Htr1, Hrd, Hrd1. split; [| lia].
    now rewrite <- app_assoc.
Qed.

Lemma do_while_events g clock m fuel : forall number d tpo w n t h w',
  do_while g clock fuel m number d tpo w = (Ok (n, t, h), w') ->
  trace w'
  = trace w ++ iterate (iterations_of h) (pass_events g (op_execs_ g) 0) /\
  reads w'
  = (reads w + 2 * length h
     + iterations_of h * (2 * closures_in (op_execs_ g)))%nat.
Proof.
  induction fuel as [| fuel IH]; intros number d tpo w n t h w' H;
    cbn [do_while] in H; [discriminate |].
  cbv zeta in H.
  apply bind_inv_Ok in H. destruct H as (number' & w1 & Hn & H).
  apply count_step_inv in Hn. destruct Hn as (_ & ->).
  apply bind_inv_Ok in H. destruct H as (tbegin & w2 & Hb & H).
  injection Hb as _ <-.
  apply bind_inv_Ok in H. destruct H as (tpo1 & w3 & Hiter & H).
  apply timed_iterations_events in Hiter. destruct Hiter as (Htr3 & Hrd3).
  cbn [trace reads] in Htr3, Hrd3.
  apply bind_inv_Ok in H. destruct H as (tend & w4 & He & H).
  injection He as _ <-.
  destruct (dlt (millis tbegin tend) (double_of_int m)).
  - apply bind_inv_Ok in H. destruct H as ([[n0 t0] h0] & w5 & Hrec & H).
    injection H as _ _ <- <-.
    apply IH in Hrec. destruct Hrec as (Htr & Hrd).
    cbn [trace reads] in Htr, Hrd.
    cbn [iterations_of length att_number].
    rewrite Htr, Hrd, Htr3, Hrd3, iterate_add. split; [| lia].
    now rewrite <- app_assoc.
  - injection H as _ _ <- <-.
    cbn [iterations_of length att_number trace reads].
    rewrite Nat.add_0_r, Htr3, Hrd3. split; [reflexivity | lia].
Qed.

Lemma same_events_report ops number op tpo :
  stable same_events (report ops number op tpo).
Proof.
  apply stable_report.
  - intros w. split; reflexivity.
  - intros a b c (H1 & H2) (H3 & H4). split; congruence.
  - intros o q w. split; [| reflexivity]. simpl.
    rewrite strip_logs_app. apply app_nil_r.
Qed.

Lemma repeats_events g clock m fuel : forall k i number tpo w hists w',
  repeats g clock fuel k i m number tpo w = (Ok hists, w') ->
  strip_logs (trace w')
  = strip_logs (trace w)
    ++ iterate (iterations_of (concat hists))
         (pass_events g (op_execs_ g) 0) /\
  reads w'
  = (reads w + 2 * length (concat hists)
     + iterations_of (concat hists) * (2 * closures_in (op_execs_ g)))%nat.
Proof.
  induction k as [| k IH]; intros i number tpo w hists w' H;
    cbn [repeats] in H.
  - injection H as <- <-. simpl. rewrite app_nil_r. split; [reflexivity | lia].
  - apply bind_inv_Ok in H. destruct H as ([[n1 t1] h1] & w1 & Hdo & H).
    apply do_while_events in Hdo. destruct Hdo as (Htr1 & Hrd1).
    apply bind_inv_Ok in H. destruct H as ([] & w2 & Hlog & H).
    injection Hlog as <-.
    apply bind_inv_Ok in H. destruct H as (t2 & w3 & Hrep & H).
    pose proof (stable_run _ _ _ _ _ (same_events_report _ _ _ _) Hrep)
      as (Htr3 & Hrd3).
    simpl in Htr3, Hrd3.
    apply bind_inv_Ok in H. destruct H as (later & w4 & Hrec & H).
    injection H as <- <-.
    apply IH in Hrec. destruct Hrec as (Htr & Hrd).
    cbn [concat]. rewrite iterations_of_app, length_app, iterate_add.
    rewrite Htr, Hrd, Htr3, Hrd3, strip_logs_app, Htr1, Hrd1.
    rewrite strip_logs_app, strip_logs_iterate. simpl.
    split; [| lia]. now rewrite app_nil_r, <- app_assoc.
Qed.

(** X7: in every call of [run_individual] that returns, apart from the log
    lines, what happened is exactly this, in this order: the warm-up pass
    (each non-empty closure once, in node order, no synchronisation), then
    as many timed passes as the iteration counts of all attempts, retries
    included, add up to; in a timed pass each non-empty closure is invoked
    once, in node order, and each invocation is followed at once by the
    synchronisation of the device of that node's first entry. *)
Theorem run_individual_events (g : GraphRuntime) (clock : nat -> Z)
    (fuel : nat) (number repeat min_repeat_ms : Z) (w w' : World)
    (hists : list (list Attempt)) :
  run_individual g clock fuel number repeat min_repeat_ms w = (Ok hists, w') ->
  strip_logs (trace w')
  = strip_logs (trace w)
    ++ exec_events (op_execs_ g) 0
    ++ iterate (iterations_of (concat hists))
         (pass_events g (op_execs_ g) 0).
Proof.
  intros H. apply run_individual_Ok_inv in H.
  destruct H as (_ & _ & _ & H). unfold RunIndividual, Run in H.
  apply bind_inv_Ok in H. destruct H as ([] & w1 & Hrun & H).
  cbv zeta in H. apply repeats_events in H. destruct H as (Htr & _).
  destruct (run_ops_events (op_execs_ g) 0 w) as (_ & Htr1 & _).
  rewrite Hrun in Htr1. simpl in Htr1.
  rewrite Htr, Htr1, strip_logs_app, strip_logs_exec_events.
  now rewrite <- app_assoc.
Qed.

Lemma run_individual_events_witness :
  strip_logs (trace (snd (run_individual g_two clock_tick 3 2 1 10 w_init)))
  = EvExec 1 :: iterate 5 [EvExec 1; EvSync cpu].
Proof.
  assert (Hrun : run_individual g_two clock_tick 3 2 1 10 w_init
                 = (Ok [[mkAttempt 2 [dzero; dzero] (millis 0 9520000);
                         mkAttempt 3 [dzero; dzero]
                                   (millis 11424000 24752000)]],
                    snd (run_individual g_two clock_tick 3 2 1 10 w_init)))
    by (vm_compute; reflexivity).
  rewrite (run_individual_events _ _ _ _ _ _ _ _ _ Hrun). reflexivity.
Defined.

(** X8: in every call of [run_individual] that returns, the clock has been
    read exactly twice per attempt (begin and end of the attempt) and twice
    per timed invocation of a closure; the warm-up pass and the reporting
    read no clock. *)
Theorem run_individual_clock_reads (g : GraphRuntime) (clock : nat -> Z)
    (fuel : nat) (number repeat min_repeat_ms : Z) (w w' : World)
    (hists : list (list Attempt)) :
  run_individual g clock fuel number repeat min_repeat_ms w = (Ok hists, w') ->
  reads w'
  = (reads w + 2 * length (concat hists)
     + 2 * (closures_in (op_execs_ g) * iterations_of (concat hists)))%nat.
Proof.
  intros H. apply run_individual_Ok_inv in H.
  destruct H as (_ & _ & _ & H). unfold RunIndividual, Run in H.
  apply bind_inv_Ok in H. destruct H as ([] & w1 & Hrun & H).
  cbv zeta in H. apply repeats_events in H. destruct H as (_ & Hrd).
  destruct (run_ops_events (op_execs_ g) 0 w) as (_ & _ & Hrd1).
  rewrite Hrun in Hrd1. simpl in Hrd1. rewrite Hrd, Hrd1. lia.
Qed.

Lemma run_individual_clock_reads_witness :
  reads (snd (run_individual g_two clock_tick 3 2 1 10 w_init)) = 14%nat.
Proof.
  assert (Hrun : run_individual g_two clock_tick 3 2 1 10 w_init
                 = (Ok [[mkAttempt 2 [dzero; dzero] (millis 0 9520000);
                         mkAttempt 3 [dzero; dzero]
                                   (millis 11424000 24752000)]],
                    snd (run_individual g_two clock_tick 3 2 1 10 w_init)))
    by (vm_compute; reflexivity).
  rewrite (run_individual_clock_reads _ _ _ _ _ _ _ _ _ Hrun). reflexivity.
Defined.

(** ** The lines of the report *)

Lemma log_shapes_app t1 t2 :
  log_shapes (t1 ++ t2) = log_shapes t1 ++ log_shapes t2.
Proof.
  induction t1 as [| e t1 IH]; simpl; [reflexivity |].
  destruct e as [j | c | [i | op q]]; simpl; now rewrite IH.
Qed.

Lemma same_shapes_trans a b c :
  same_shapes a b -> same_shapes b c -> same_shapes a c.
Proof. unfold same_shapes. congruence. Qed.

Lemma same_shapes_invoke i f : stable same_shapes (invoke i f).
Proof.
  intros w. unfold same_shapes. simpl.
  rewrite log_shapes_app. apply app_nil_r.
Qed.

Lemma same_shapes_sync c : stable same_shapes (CVMSynchronize c).
Proof.
  intros w. unfold same_shapes. simpl.
  rewrite log_shapes_app. apply app_nil_r.
Qed.

Lemma same_shapes_do_while g clock fuel m number d tpo :
  stable same_shapes (do_while g clock fuel m number d tpo).
Proof.
  apply stable_do_while.
  - intros w. reflexivity.
  - apply same_shapes_trans.
  - intros w. reflexivity.
  - apply same_shapes_invoke.
  - apply same_shapes_sync.
Qed.

Lemma same_shapes_run_ops ops k : stable same_shapes (run_ops ops k).
Proof.
  apply stable_run_ops.
  - intros w. reflexivity.
  - apply same_shapes_trans.
  - apply same_shapes_invoke.
Qed.

(** The reporting loop numbers the closure-bearing nodes from [op] on,
    empty slots taking no number. *)
Lemma report_log_shapes ops : forall number op tpo w,
  length tpo = length ops ->
  log_shapes (trace (snd (report ops number op tpo w)))
  = log_shapes (trace w) ++ map ShOp (count_up op (closures_in ops)).
Proof.
  induction ops as [| o rest IH]; intros number op tpo w Hlen;
    cbn [report closures_in].
  - simpl. now rewrite app_nil_r.
  - destruct tpo as [| t tpo0]; [discriminate |].
    injection Hlen as Hlen.
    destruct o as [f |].
    + set (t' := ddiv t (double_of_int number)).
      set (w1 := mkWorld (mem w) (reads w) (trace w ++ [EvLog (LogOp op t')])).
      assert (Hlog : LOG_INFO (LogOp op t') w = (Ok tt, w1)) by reflexivity.
      rewrite (bind_Ok _ _ _ _ _ Hlog).
      destruct (report_Ok rest number (op + 1) tpo0 w1) as (r & w2 & Hr).
      specialize (IH number (op + 1) tpo0 w1 Hlen). rewrite Hr in IH.
      rewrite (bind_Ok _ _ _ _ _ Hr). cbn [ret snd] in *.
      rewrite IH. subst w1. cbn [trace count_up map].
      rewrite log_shapes_app. simpl. now rewrite <- app_assoc.
    + destruct (report_Ok rest number op tpo0 w) as (r & w2 & Hr).
      specialize (IH number op tpo0 w Hlen). rewrite Hr in IH.
      rewrite (bind_Ok _ _ _ _ _ Hr). cbn [ret snd] in *. exact IH.
Qed.

Lemma repeats_log_shapes g clock m fuel : forall k i number tpo w hists w',
  length tpo = length (op_execs_ g) ->
  repeats g clock fuel k i m number tpo w = (Ok hists, w') ->
  log_shapes (trace w')
  = log_shapes (trace w) ++ report_shapes (closures_in (op_execs_ g)) i k.
Proof.
  induction k as [| k IH]; intros i number tpo w hists w' Hlen H;
    cbn [repeats report_shapes] in *.
  - injection H as _ <-. now rewrite app_nil_r.
  - apply bind_inv_Ok in H. destruct H as ([[n1 t1] h1] & w1 & Hdo & H).
    pose proof (stable_run _ _ _ _ _
                  (same_shapes_do_while _ _ _ _ _ _ _) Hdo) as Hsh1.
    apply do_while_inv in Hdo.
    destruct Hdo as (a & rest & _ & _ & _ & _ & _ & Hlen1).
    apply bind_inv_Ok in H. destruct H as ([] & w2 & Hlog & H).
    injection Hlog as <-.
    apply bind_inv_Ok in H. destruct H as (t2 & w3 & Hrep & H).
    assert (Hlen1' : length t1 = length (op_execs_ g)) by congruence.
    pose proof (report_log_shapes (op_execs_ g) n1 0 t1
                  (mkWorld (mem w1) (reads w1)
                     (trace w1 ++ [EvLog (LogRepeat i)])) Hlen1') as Hsh3.
    rewrite Hrep in Hsh3. cbn [snd trace] in Hsh3.
    apply report_length in Hrep.
    apply bind_inv_Ok in H. destruct H as (later & w4 & Hrec & H).
    injection H as _ <-.
    apply IH in Hrec; [| congruence].
    unfold same_shapes in Hsh1.
    rewrite Hrec, Hsh3, log_shapes_app, Hsh1. simpl.
    now rewrite <- !app_assoc.
Qed.

(** X9: every call of [run_individual] that returns has written, for each
    repeat [i] from 0 to [repeat - 1] in turn, the line "Repeat: i" followed
    by one "Op #k" line per non-empty closure, numbered k = 0, 1, ... in
    node order (empty slots take no number), and no other line. *)
Theorem run_individual_report_lines (g : GraphRuntime) (clock : nat -> Z)
    (fuel : nat) (number repeat min_repeat_ms : Z) (w w' : World)
    (hists : list (list Attempt)) :
  run_individual g clock fuel number repeat min_repeat_ms w = (Ok hists, w') ->
  log_shapes (trace w')
  = log_shapes (trace w)
    ++ report_shapes (closures_in (op_execs_ g)) 0 (Z.to_nat repeat).
Proof.
  intros H. apply run_individual_Ok_inv in H.
  destruct H as (_ & _ & _ & H). unfold RunIndividual, Run in H.
  apply bind_inv_Ok in H. destruct H as ([] & w1 & Hrun & H).
  pose proof (stable_run _ _ _ _ _ (same_shapes_run_ops _ _) Hrun) as Hsh.
  cbv zeta in H. apply repeats_log_shapes in H; [| apply repeat_length].
  unfold same_shapes in Hsh. now rewrite H, Hsh.
Qed.

Lemma run_individual_report_lines_witness :
  log_shapes (trace (snd (run_individual g_three clock_tick 3 1 2 0 w_init)))
  = [ShRepeat 0; ShOp 0; ShOp 1; ShOp 2;
     ShRepeat 1; ShOp 0; ShOp 1; ShOp 2].
Proof.
  destruct (run_individual g_three clock_tick 3 1 2 0 w_init)
    as [[hists | msg | | ] w'] eqn:Hrun; try (vm_compute in Hrun; discriminate).
  cbn [snd].
  rewrite (run_individual_report_lines _ _ _ _ _ _ _ _ _ Hrun). reflexivity.
Defined.
